(** * DETR video object detection: label sizing, colour palette and the
      frame-processing loop of [object-detection-video.ipynb]

    The notebook defines [calculate_label_size], [generate_color_palette],
    [get_label_color], [add_fps_counter] and [process_video].  They are
    embedded here as Rocq functions.

    Numbers.  NumPy scalars that flow through [np.log] are modelled by
    [npfloat]: a real number or one of the special values +inf, -inf, NaN.
    Finite arithmetic is exact (no rounding, no overflow, no signed zero);
    the special values follow IEEE 754 as NumPy applies it (division by
    zero yields inf or NaN with a warning, never an exception).  Scores,
    thresholds and clock readings are rationals [Q], on which the
    comparisons of the source are computable; the detector's arrays are
    float32, so box corners are [np32] values (a rational, an infinity or
    NaN) and the Python-float threshold is rounded to float32 where NumPy
    compares it with the scores.

    Libraries.  Calls into OpenCV, PyTorch, tqdm and [gc] are recorded as
    events; what they return is read from a [World]. *)

From Stdlib Require Import ZArith QArith Qround Reals Qreals Lra Lia List String.
From stdpp Require Import gmap strings list.

Close Scope Q_scope.
Close Scope R_scope.
Open Scope Z_scope.

(** ** NumPy floating-point scalars, idealised *)

Module NumPy.

Inductive npfloat : Type :=
| Fin (r : R)
| PInf
| NInf
| NaN.

Definition is_nan (x : npfloat) : bool :=
  match x with NaN => true | _ => false end.

(** Sign of a real, as a three-way comparison with zero. *)
Definition Rsign (r : R) : comparison :=
  if Rlt_dec r 0 then Lt else if Rlt_dec 0 r then Gt else Eq.

Definition np_neg (x : npfloat) : npfloat :=
  match x with
  | Fin r => Fin (- r)%R
  | PInf => NInf
  | NInf => PInf
  | NaN => NaN
  end.

(** An infinity with the sign of [s], NaN for [Eq] (inf * 0). *)
Definition inf_of_sign (s : comparison) : npfloat :=
  match s with Gt => PInf | Lt => NInf | Eq => NaN end.

Definition np_sign (x : npfloat) : option comparison :=
  match x with
  | Fin r => Some (Rsign r)
  | PInf => Some Gt
  | NInf => Some Lt
  | NaN => None
  end.

Definition sign_mul (a b : comparison) : comparison :=
  match a, b with
  | Eq, _ | _, Eq => Eq
  | Gt, Gt | Lt, Lt => Gt
  | Gt, Lt | Lt, Gt => Lt
  end.

Definition np_mul (x y : npfloat) : npfloat :=
  match x, y with
  | Fin a, Fin b => Fin (a * b)%R
  | NaN, _ | _, NaN => NaN
  | _, _ =>
      match np_sign x, np_sign y with
      | Some s, Some t => inf_of_sign (sign_mul s t)
      | _, _ => NaN
      end
  end.

(** [x / y].  A zero divisor gives an infinity of the sign of [x], or NaN
    for 0/0; NumPy warns and continues. *)
Definition np_div (x y : npfloat) : npfloat :=
  match x, y with
  | NaN, _ | _, NaN => NaN
  | Fin a, Fin b =>
      if Req_dec_T b 0 then inf_of_sign (Rsign a) else Fin (a / b)%R
  | Fin _, _ => Fin 0%R
  | _, Fin b =>
      match np_sign x with
      | Some s => inf_of_sign (sign_mul s (if Rlt_dec b 0 then Lt else Gt))
      | None => NaN
      end
  | _, _ => NaN
  end.

Definition np_add (x y : npfloat) : npfloat :=
  match x, y with
  | NaN, _ | _, NaN => NaN
  | Fin a, Fin b => Fin (a + b)%R
  | PInf, NInf | NInf, PInf => NaN
  | PInf, _ | _, PInf => PInf
  | NInf, _ | _, NInf => NInf
  end.

Definition np_sub (x y : npfloat) : npfloat := np_add x (np_neg y).

(** [np.log]: natural logarithm; log 0 = -inf, log of a negative is NaN. *)
Definition np_log (x : npfloat) : npfloat :=
  match x with
  | Fin r =>
      match Rsign r with
      | Gt => Fin (ln r)
      | Eq => NInf
      | Lt => NaN
      end
  | PInf => PInf
  | NInf => NaN
  | NaN => NaN
  end.

(** [x <= y] on non-NaN values. *)
Definition np_le (x y : npfloat) : bool :=
  match x, y with
  | NaN, _ | _, NaN => false
  | NInf, _ | _, PInf => true
  | PInf, _ | _, NInf => false
  | Fin a, Fin b => if Rle_dec a b then true else false
  end.

(** [np.maximum] and [np.minimum] propagate NaN. *)
Definition np_maximum (x y : npfloat) : npfloat :=
  match x, y with
  | NaN, _ | _, NaN => NaN
  | _, _ => if np_le x y then y else x
  end.

Definition np_minimum (x y : npfloat) : npfloat :=
  match x, y with
  | NaN, _ | _, NaN => NaN
  | _, _ => if np_le x y then x else y
  end.

(** [np.clip(a, a_min, a_max)] is [np.minimum(a_max, np.maximum(a, a_min))]. *)
Definition np_clip (a a_min a_max : npfloat) : npfloat :=
  np_minimum a_max (np_maximum a a_min).

End NumPy.

Import NumPy.

(** ** float32 values *)

Module Float32.

Inductive np32 : Type :=
| F32 (q : Q)
| Inf32 (negative : bool)
| NaN32.

Definition pow2 (k : Z) : Q := Qpower 2 k.

(** For [q > 0]: the [e] with [2^e <= q < 2^(e+1)]. *)
Definition floor_log2 (q : Q) : Z :=
  let e0 := Z.log2 (Qnum q) - Z.log2 (Z.pos (Qden q)) in
  if Qle_bool (pow2 e0) q then e0 else e0 - 1.

(** Nearest integer, ties to even. *)
Definition round_half_even (q : Q) : Z :=
  let f := Qfloor q in
  match Qcompare (q - inject_Z f) (1 # 2) with
  | Lt => f
  | Gt => f + 1
  | Eq => if Z.even f then f else f + 1
  end.

(** Rounding of a positive rational to binary32: 24 significant bits,
    least exponent -126 (below it the spacing stays 2^-149), overflow to
    infinity from 2^128 on. *)
Definition round_pos (q : Q) : np32 :=
  let e := Z.max (floor_log2 q) (-126) in
  let ulp := pow2 (e - 23) in
  let v := (inject_Z (round_half_even (q / ulp)) * ulp)%Q in
  if Qle_bool (pow2 128) v then Inf32 false else F32 (Qred v).

Definition np32_neg (x : np32) : np32 :=
  match x with
  | F32 q => F32 (- q)%Q
  | Inf32 s => Inf32 (negb s)
  | NaN32 => NaN32
  end.

(** The cast of a double to float32, round to nearest, ties to even. *)
Definition to_float32 (q : Q) : np32 :=
  match Qnum q with
  | 0 => F32 0
  | Z.pos _ => round_pos q
  | Z.neg _ => np32_neg (round_pos (- q)%Q)
  end.

(** [x - y], exact on finite values. *)
Definition np32_sub (x y : np32) : np32 :=
  match x, y with
  | NaN32, _ | _, NaN32 => NaN32
  | F32 a, F32 b => F32 (a - b)%Q
  | Inf32 s, Inf32 t => if Bool.eqb s t then NaN32 else Inf32 s
  | Inf32 s, F32 _ => Inf32 s
  | F32 _, Inf32 t => Inf32 (negb t)
  end.

Definition np32_to_np (x : np32) : npfloat :=
  match x with
  | F32 q => Fin (Q2R q)
  | Inf32 false => PInf
  | Inf32 true => NInf
  | NaN32 => NaN
  end.

End Float32.

Import Float32.

(** ** [calculate_label_size] *)

Definition default_min_scale : npfloat := Fin (4 / 10)%R.
Definition default_max_scale : npfloat := Fin (12 / 10)%R.

(** The two locals of the function, then the function. *)
Definition box_size_ratio
    (box_width box_height frame_width frame_height : npfloat) : npfloat :=
  np_div (np_mul box_width box_height) (np_mul frame_width frame_height).

Definition font_scale_unclipped (ratio min_scale max_scale : npfloat) : npfloat :=
  np_add min_scale
    (np_mul
       (np_div (np_log (np_add (Fin 1%R) (np_mul ratio (Fin 100%R))))
               (Fin 5%R))
       (np_sub max_scale min_scale)).

Definition calculate_label_size
    (box_width box_height frame_width frame_height : npfloat)
    (min_scale max_scale : npfloat) : npfloat :=
  let ratio := box_size_ratio box_width box_height frame_width frame_height in
  let font_scale := font_scale_unclipped ratio min_scale max_scale in
  np_clip font_scale min_scale max_scale.

(** The contract of the label-sizing heuristic as the specification words
    it, on real numbers: the logarithmic formula, then a clamp. *)
Definition spec_clamp (x lo hi : R) : R :=
  if Rlt_dec x lo then lo else if Rlt_dec hi x then hi else x.

Definition spec_label_scale (box_w box_h frame_w frame_h min_scale max_scale : R) : R :=
  let ratio := ((box_w * box_h) / (frame_w * frame_h))%R in
  spec_clamp
    (min_scale + (ln (1 + 100 * ratio) / 5) * (max_scale - min_scale))%R
    min_scale max_scale.

(** ** The colour palette *)

(** The legacy global generator of [np.random].  Its state is the stream of
    raw draws still to come; [np.random.seed] replaces the state by the
    stream the bit generator derives from the seed.  The bit generator
    itself (MT19937) is a parameter. *)
Module NpRandom.

Definition rng_state : Type := nat -> Z.
Definition bit_generator : Type := Z -> rng_state.

Definition seed (bg : bit_generator) (s : Z) (st : rng_state) : rng_state :=
  bg s.

(** One bounded draw of [randint(low, high)]: [low] inclusive, [high]
    exclusive.  The raw draw is reduced to the width of the interval, so
    exactly the integers of [low, high) can come out. *)
Definition draw (low high : Z) (st : rng_state) : Z * rng_state :=
  (low + st 0%nat mod (high - low), fun n => st (S n)).

(** [tuple(np.random.randint(low, high, 3).tolist())] *)
Definition randint3 (low high : Z) (st : rng_state) : (Z * Z * Z) * rng_state :=
  let '(r, st1) := draw low high st in
  let '(g, st2) := draw low high st1 in
  let '(b, st3) := draw low high st2 in
  ((r, g, b), st3).

End NpRandom.

Import NpRandom.

Definition color : Type := Z * Z * Z.

(** [range(n)] *)
Definition py_range (n : Z) : list Z := map Z.of_nat (seq 0 (Z.to_nat n)).

(** The dict comprehension [{label: ... for label in labels}], one
    [randint] call per label, in order. *)
Fixpoint palette_of (labels : list Z) (acc : gmap Z color) (st : rng_state)
  : gmap Z color * rng_state :=
  match labels with
  | [] => (acc, st)
  | label :: rest =>
      let '(c, st') := randint3 0 255 st in
      palette_of rest (<[label := c]> acc) st'
  end.

Definition generate_color_palette (bg : bit_generator) (num_classes : Z)
    (st : rng_state) : gmap Z color * rng_state :=
  let st := NpRandom.seed bg 42 st in
  palette_of (py_range num_classes) ∅ st.

(** The entry of label [k] is made of the raw draws [3k], [3k+1], [3k+2]
    of the stream in force when the comprehension starts. *)
Definition drawn_color (st : rng_state) (i : nat) : color :=
  (st (3 * i)%nat mod 255, st (3 * i + 1)%nat mod 255,
   st (3 * i + 2)%nat mod 255).

(** The module-level [colors = generate_color_palette(num_classes=91)]. *)
Definition colors (bg : bit_generator) (st : rng_state) : gmap Z color :=
  fst (generate_color_palette bg 91 st).

Definition default_color : color := (0, 255, 0).

Definition get_label_color (colors : gmap Z color) (label : Z) : color :=
  default default_color (colors !! label).

(** ** Exceptions, library calls and the world *)

Inductive exn : Type :=
| ValueError (msg : string)
| ZeroDivisionError
| KeyError (key : Z)
| IndexError
| OverflowError
| LibraryError (msg : string).  (* raised inside OpenCV or PyTorch *)

Inductive device : Type := Mps | Cpu.

(** The two formatted strings of the notebook, kept symbolic:
    [f"{name}: {score:.2f}"] and [f"FPS: {fps:.1f}"]. *)
Inductive text : Type :=
| LabelText (name : string) (score : Q)
| FpsText (fps : Q).

(** Drawing calls, with the arguments they receive (font and line type
    are the same constants in every call). *)
Inductive cv_call : Type :=
| Rectangle (pt1 pt2 : Z * Z) (col : color) (thickness : Z)
| PutText (txt : text) (org : Z * Z) (font_scale : npfloat) (col : color)
    (thickness : Z).

(** A frame buffer: the decoded picture and what was drawn on it since. *)
Record Frame : Type := { pixels : nat; drawn : list cv_call }.

Definition cv_draw (f : Frame) (c : cv_call) : Frame :=
  {| pixels := pixels f; drawn := drawn f ++ [c] |}.

Definition box : Type := np32 * np32 * np32 * np32.

(** [results] of [post_process_object_detection]: three parallel arrays. *)
Record Results : Type :=
  { scores : list Q; labels : list Z; boxes : list box }.

(** One decoded frame together with what the environment does while the
    loop body handles it: the outcome of inference and the two readings
    of [time.time()]. *)
Record FrameIn : Type :=
  { f_pixels : nat;
    f_detect : exn + Results;
    f_start : Q;
    f_end : Q }.

(** What one call of [cap.read()] does. *)
Inductive ReadResult : Type :=
| RetFrame (f : FrameIn)   (* ret = True *)
| RetFalse                 (* ret = False *)
| ReadRaises (e : exn).

Record Video : Type :=
  { v_width : Z; v_height : Z; v_fps : Z; v_frame_count : Z;
    v_reads : list ReadResult }.

Record World : Type :=
  { mps_available : bool;
    bitgen : bit_generator;
    rng0 : rng_state;
    id2label : gmap Z string;
    getTextSize : text -> npfloat -> Z -> (Z * Z) * Z;
    (* [None]: [cap.isOpened()] is false *)
    VideoCapture : string -> option Video;
    (* [out.isOpened()]; the notebook never asks *)
    VideoWriter_isOpened : string -> bool }.

Inductive message : Type :=
| UsingDevice (d : device)
| ErrorOccurred (e : exn)
| Completed.

Inductive event : Type :=
| Print (m : message)
| ModelTo (d : device)
| CapOpen (path : string)
| WriterOpen (path : string) (fps w h : Z)
| PbarOpen (total : Z)
| CapRead
| Detect (px : nat)
| Write (f : Frame)
| PbarUpdate
| EmptyCache
| GcCollect
| PbarClose
| CapRelease
| OutRelease
| DestroyAllWindows.

(** ** Computations: a result or an exception, and the calls made *)

Definition M (A : Type) : Type := (exn + A) * list event.

Definition ret {A} (a : A) : M A := (inr a, []).
Definition raise {A} (e : exn) : M A := (inl e, []).
Definition emit (ev : event) : M unit := (inr tt, [ev]).
Definition lift {A} (r : exn + A) : M A := (r, []).

Definition bind {A B} (m : M A) (k : A -> M B) : M B :=
  match m with
  | (inl e, t) => (inl e, t)
  | (inr a, t) => let '(r, t') := k a in (r, t ++ t')
  end.

Notation "'let*' x := m 'in' k" := (bind m (fun x => k))
  (at level 10, x pattern, m at level 100, k at level 200).
Notation "m ;;; k" := (bind m (fun _ => k))
  (at level 100, k at level 200, right associativity).

(** [try: body except Exception as e: handler(e)] *)
Definition try_except {A} (body : M A) (handler : exn -> M A) : M A :=
  match body with
  | (inl e, t) => let '(r, t') := handler e in (r, t ++ t')
  | (inr a, t) => (inr a, t)
  end.

(** [try: body finally: final]: [final] runs on both exits; the outcome
    of [body] stands unless [final] itself raises. *)
Definition try_finally {A} (body : M A) (final : M unit) : M A :=
  let '(r, t) := body in
  let '(rf, tf) := final in
  (match rf with inl e' => inl e' | inr _ => r end, t ++ tf).

(** ** Python and NumPy primitives used by the loop *)

(** [int(x)] on a finite float truncates toward zero. *)
Definition py_int_Q (q : Q) : Z := Z.quot (Qnum q) (Z.pos (Qden q)).

Definition Rtrunc (r : R) : Z :=
  if Rlt_dec r 0 then - Int_part (- r) else Int_part r.

(** [int(x)] on a NumPy float: NaN and the infinities raise. *)
Definition py_int (x : npfloat) : exn + Z :=
  match x with
  | Fin r => inr (Rtrunc r)
  | PInf | NInf => inl OverflowError
  | NaN => inl (ValueError "cannot convert float NaN to integer")
  end.

(** [a / b] on Python floats raises on a zero divisor. *)
Definition py_div (a b : Q) : exn + Q :=
  if Qeq_bool b 0 then inl ZeroDivisionError else inr (a / b)%Q.

(** [calculate_label_size] as any caller may call it.  A size is a built-in Python
    number or a NumPy scalar; a product or quotient of two built-in
    numbers is Python's, so line 76 raises on a zero divisor, and with a
    NumPy scalar among the operands it is NumPy's, which does not.  From
    [np.log] on the values are NumPy scalars.  [process_video] passes
    NumPy box sizes and built-in frame sizes. *)
Inductive pynum : Type :=
| PyNum (q : Q)
| NpNum (x : npfloat).

Definition to_np (x : pynum) : npfloat :=
  match x with
  | PyNum q => Fin (Q2R q)
  | NpNum y => y
  end.

Definition py_mul (x y : pynum) : pynum :=
  match x, y with
  | PyNum a, PyNum b => PyNum (a * b)%Q
  | _, _ => NpNum (np_mul (to_np x) (to_np y))
  end.

Definition py_truediv (x y : pynum) : exn + pynum :=
  match x, y with
  | PyNum a, PyNum b =>
      if Qeq_bool b 0 then inl ZeroDivisionError else inr (PyNum (a / b)%Q)
  | _, _ => inr (NpNum (np_div (to_np x) (to_np y)))
  end.

Definition calculate_label_size_call
    (box_width box_height frame_width frame_height : pynum)
    (min_scale max_scale : npfloat) : exn + npfloat :=
  match py_truediv (py_mul box_width box_height)
                   (py_mul frame_width frame_height) with
  | inl e => inl e
  | inr ratio =>
      let font_scale :=
        font_scale_unclipped (to_np ratio) min_scale max_scale in
      inr (np_clip font_scale min_scale max_scale)
  end.

(** [int(x)] on a float32 *)
Definition py_int32 (x : np32) : exn + Z :=
  match x with
  | F32 q => inr (py_int_Q q)
  | Inf32 _ => inl OverflowError
  | NaN32 => inl (ValueError "cannot convert float NaN to integer")
  end.

(** [s > t] *)
Definition Qgt_bool (s t : Q) : bool := negb (Qle_bool s t).

(** [s > t] for a float32 score [s] and a float32 [t] *)
Definition gt32 (s : Q) (t : np32) : bool :=
  match t with
  | F32 v => Qgt_bool s v
  | Inf32 negative => negative
  | NaN32 => false
  end.

(** The OpenCV binding takes coordinates as C ints. *)
Definition c_int (z : Z) : bool := (- 2 ^ 31 <=? z) && (z <? 2 ^ 31).

Definition call_fits (c : cv_call) : bool :=
  match c with
  | Rectangle (x1, y1) (x2, y2) _ _ =>
      c_int x1 && c_int y1 && c_int x2 && c_int y2
  | PutText _ (x, y) _ _ _ => c_int x && c_int y
  end.

(** A drawing call as process_video makes it on detector output: a point
    that does not fit a C int makes the binding raise.  (The stroke
    widths passed are -1 or between 1 and 3.) *)
Definition cv_draw_checked (f : Frame) (c : cv_call) : exn + Frame :=
  if call_fits c then inr (cv_draw f c) else inl (LibraryError "cv2.error").

(** [xs[keep]] with a boolean mask: the entries whose flag is set; a mask
    of another length is an [IndexError]. *)
Fixpoint select {A} (xs : list A) (keep : list bool) : list A :=
  match xs, keep with
  | x :: xs', k :: keep' =>
      if k then x :: select xs' keep' else select xs' keep'
  | _, _ => []
  end.

Definition mask_index {A} (xs : list A) (keep : list bool) : exn + list A :=
  if Nat.eqb (length xs) (length keep) then inr (select xs keep)
  else inl IndexError.

(** [zip(a, b, c)] stops at the shortest argument. *)
Fixpoint zip3 {A B C} (a : list A) (b : list B) (c : list C)
  : list (A * B * C) :=
  match a, b, c with
  | x :: a', y :: b', z :: c' => (x, y, z) :: zip3 a' b' c'
  | _, _, _ => []
  end.

(** [d[k]] on a dict *)
Definition dict_getitem (d : gmap Z string) (k : Z) : exn + string :=
  match d !! k with
  | Some v => inr v
  | None => inl (KeyError k)
  end.

Definition bind_exn {A B} (r : exn + A) (k : A -> exn + B) : exn + B :=
  match r with
  | inl e => inl e
  | inr a => k a
  end.

(** ** [add_fps_counter] *)

(** The points of its two calls derive from the frame width and from the
    text size OpenCV itself reports, both C ints of the size of a
    picture, so the calls are taken to be accepted. *)

Definition add_fps_counter (w : World) (frame : Frame) (fps : Q)
    (frame_width : Z) : Frame :=
  let fps_text := FpsText fps in
  let font_scale := Fin (7 / 10)%R in
  let font_thickness := 2 in
  let '((text_width, text_height), baseline) :=
    getTextSize w fps_text font_scale font_thickness in
  let padding := 10 in
  let x := frame_width - text_width - padding in
  let y := text_height + padding + baseline in
  let frame :=
    cv_draw frame
      (Rectangle (x - 5, y - text_height - baseline - 5)
                 (x + text_width + 5, y + 5) (0, 0, 0) (-1)) in
  cv_draw frame (PutText fps_text (x, y) font_scale (255, 255, 255)
                   font_thickness).

(** ** [process_video] *)

(** The body of [for box, label, score in zip(boxes, labels, scores)]. *)
Definition draw_detection (w : World) (palette : gmap Z color)
    (frame_width frame_height : Z) (frame : Frame) (d : box * Z * Q)
  : exn + Frame :=
  let '(bx, label, score) := d in
  let '(xmin, ymin, xmax, ymax) := bx in
  let box_width := np32_sub xmax xmin in
  let box_height := np32_sub ymax ymin in
  let font_scale :=
    calculate_label_size (np32_to_np box_width) (np32_to_np box_height)
      (Fin (IZR frame_width)) (Fin (IZR frame_height))
      default_min_scale default_max_scale in
  bind_exn (dict_getitem (id2label w) label) (fun name =>
  let label_text := LabelText name score in
  let '((text_width, text_height), baseline) :=
    getTextSize w label_text font_scale 1 in
  let col := get_label_color palette label in
  bind_exn (py_int32 xmin) (fun x0 =>
  bind_exn (py_int32 ymin) (fun y0 =>
  bind_exn (py_int32 xmax) (fun x1 =>
  bind_exn (py_int32 ymax) (fun y1 =>
  bind_exn (py_int (np_mul font_scale (Fin 3%R))) (fun t3 =>
  bind_exn
    (cv_draw_checked frame (Rectangle (x0, y0) (x1, y1) col (Z.max 2 t3)))
    (fun frame =>
  bind_exn
    (cv_draw_checked frame
       (Rectangle (x0, y0 - text_height - baseline - 5)
          (x0 + text_width, y0) col (-1)))
    (fun frame =>
  bind_exn (py_int (np_mul font_scale (Fin (15 / 10)%R))) (fun t15 =>
  cv_draw_checked frame
    (PutText label_text (x0, y0 - baseline - 2) font_scale (0, 0, 0)
       (Z.max 1 t15))))))))))).

Fixpoint draw_boxes (w : World) (palette : gmap Z color)
    (frame_width frame_height : Z) (frame : Frame) (ds : list (box * Z * Q))
  : exn + Frame :=
  match ds with
  | [] => inr frame
  | d :: rest =>
      bind_exn (draw_detection w palette frame_width frame_height frame d)
        (fun frame' => draw_boxes w palette frame_width frame_height frame' rest)
  end.

(** The local variables the loop carries from one frame to the next. *)
Record Locals : Type :=
  { frame_count : Z; total_fps : Q; fps : Q; pbar_n : Z }.

(** [keep = scores > threshold]: [scores] is a float32 array and
    [threshold] a Python float, which NumPy converts to float32 before it
    compares. *)
Definition keep_mask (scs : list Q) (threshold : Q) : list bool :=
  map (fun s => gt32 s (to_float32 threshold)) scs.

(** A zipped detection has a score above [t]. *)
Definition above (t : Q) (d : box * Z * Q) : bool := Qgt_bool (snd d) t.

(** A zipped detection passes the comparison with the float32 [t]. *)
Definition above32 (t : np32) (d : box * Z * Q) : bool := gt32 (snd d) t.

(** Detection, filtering and drawing of the boxes, up to line 271. *)
Definition detect_and_draw (w : World) (palette : gmap Z color)
    (threshold : Q) (frame_width frame_height : Z) (fi : FrameIn)
  : exn + Frame :=
  let frame := {| pixels := f_pixels fi; drawn := [] |} in
  bind_exn (f_detect fi) (fun results =>
  let scs := scores results in
  let keep := keep_mask scs threshold in
  bind_exn (mask_index (boxes results) keep) (fun bxs =>
  bind_exn (mask_index (labels results) keep) (fun lbls =>
  bind_exn (mask_index scs keep) (fun scs =>
  draw_boxes w palette frame_width frame_height frame (zip3 bxs lbls scs))))).

(** One iteration of the [while] loop after a successful read. *)
Definition process_frame (w : World) (palette : gmap Z color)
    (threshold : Q) (frame_width frame_height : Z) (fi : FrameIn)
    (l : Locals) : M Locals :=
  let start_time := f_start fi in
  emit (Detect (f_pixels fi)) ;;;
  let* frame :=
    lift (detect_and_draw w palette threshold frame_width frame_height fi) in
  let end_time := f_end fi in
  let* fps := lift (py_div 1 (end_time - start_time)%Q) in
  let total_fps := (total_fps l + fps)%Q in
  let frame_count := frame_count l + 1 in
  let frame := add_fps_counter w frame fps frame_width in
  emit (Write frame) ;;;
  emit PbarUpdate ;;;
  let n := pbar_n l + 1 in
  (if n mod 100 =? 0 then emit EmptyCache ;;; emit GcCollect else ret tt) ;;;
  ret {| frame_count := frame_count; total_fps := total_fps; fps := fps;
         pbar_n := n |}.

(** [while cap.isOpened(): ...].  The capture stays open until the
    [finally] block, so the loop ends on [ret = False] or on an exception;
    a source read to its end answers [ret = False]. *)
Fixpoint frame_loop (w : World) (palette : gmap Z color) (threshold : Q)
    (frame_width frame_height : Z) (reads : list ReadResult) (l : Locals)
  : M Locals :=
  match reads with
  | [] => emit CapRead ;;; ret l
  | RetFalse :: _ => emit CapRead ;;; ret l
  | ReadRaises e :: _ => emit CapRead ;;; raise e
  | RetFrame fi :: rest =>
      emit CapRead ;;;
      let* l' := process_frame w palette threshold frame_width frame_height fi l in
      frame_loop w palette threshold frame_width frame_height rest l'
  end.

(** The [finally] block. *)
Definition finalize : M unit :=
  emit PbarClose ;;;
  emit CapRelease ;;;
  emit OutRelease ;;;
  emit DestroyAllWindows ;;;
  emit EmptyCache ;;;
  emit GcCollect ;;;
  emit (ModelTo Cpu).

Definition default_threshold : Q := 9 # 10.

(** The locals as they stand when the loop is entered. *)
Definition initial_locals (cap : Video) : Locals :=
  {| frame_count := 0; total_fps := 0; fps := inject_Z (v_fps cap);
     pbar_n := 0 |}.

Definition process_video (w : World) (video_path output_path : string)
    (threshold : Q) : M unit :=
  let device := if mps_available w then Mps else Cpu in
  emit (Print (UsingDevice device)) ;;;
  emit (ModelTo device) ;;;
  emit (CapOpen video_path) ;;;
  match VideoCapture w video_path with
  | None => raise (ValueError "Error opening video file")
  | Some cap =>
      let frame_width := v_width cap in
      let frame_height := v_height cap in
      let fps := v_fps cap in
      let total_frames := v_frame_count cap in
      emit (WriterOpen output_path fps frame_width frame_height) ;;;
      emit (PbarOpen total_frames) ;;;
      let l := initial_locals cap in
      try_finally
        (try_except
           (frame_loop w (colors (bitgen w) (rng0 w)) threshold
              frame_width frame_height (v_reads cap) l)
           (fun e => emit (Print (ErrorOccurred e)) ;;; raise e))
        finalize ;;;
      emit (Print Completed)
  end.

(** The device the model is moved to, and the loop [process_video] runs
    on an opened source. *)
Definition device_of (w : World) : device :=
  if mps_available w then Mps else Cpu.

Definition main_loop (w : World) (threshold : Q) (cap : Video) : M Locals :=
  frame_loop w (colors (bitgen w) (rng0 w)) threshold
    (v_width cap) (v_height cap) (v_reads cap) (initial_locals cap).

(** The calls made between entry and the [try] block. *)
Definition init_calls (w : World) (video_path output_path : string)
    (cap : Video) : list event :=
  [Print (UsingDevice (device_of w)); ModelTo (device_of w);
   CapOpen video_path;
   WriterOpen output_path (v_fps cap) (v_width cap) (v_height cap);
   PbarOpen (v_frame_count cap)].

Definition finalize_calls : list event :=
  [PbarClose; CapRelease; OutRelease; DestroyAllWindows; EmptyCache;
   GcCollect; ModelTo Cpu].

(** [w] with another answer to "did the output file open?" *)
Definition with_sink (w : World) (sink : string -> bool) : World :=
  {| mps_available := mps_available w;
     bitgen := bitgen w;
     rng0 := rng0 w;
     id2label := id2label w;
     getTextSize := getTextSize w;
     VideoCapture := VideoCapture w;
     VideoWriter_isOpened := sink |}.

(** ** Reading a trace *)

Definition written (tr : list event) : list Frame :=
  omap (fun ev => match ev with Write f => Some f | _ => None end) tr.

Definition printed (tr : list event) : list message :=
  omap (fun ev => match ev with Print m => Some m | _ => None end) tr.

Definition reads_made (tr : list event) : nat :=
  length (List.filter (fun ev => match ev with CapRead => true | _ => false end) tr).

(** The frames that reach the output file. *)
Definition sink_frames (w : World) (output_path : string) (tr : list event)
  : list Frame :=
  if VideoWriter_isOpened w output_path then written tr else [].

(** ** Sample inputs *)

(** A linear congruential stand-in for the bit generator. *)
Definition sample_bitgen : bit_generator :=
  fun s n => (s + 1) * 1103515245 + Z.of_nat n * 12345.

Definition sample_rng : rng_state := fun n => Z.of_nat n.

Definition sample_getTextSize (t : text) (scale : npfloat) (thickness : Z)
  : (Z * Z) * Z := ((80, 12), 4).

Definition sample_id2label : gmap Z string :=
  {[ 1 := "person"%string; 3 := "car"%string ]}.

Definition sample_world (source : option Video) (sink : bool) : World :=
  {| mps_available := false;
     bitgen := sample_bitgen;
     rng0 := sample_rng;
     id2label := sample_id2label;
     getTextSize := sample_getTextSize;
     VideoCapture := fun _ => source;
     VideoWriter_isOpened := fun _ => sink |}.

(** The float32 values nearest to 0.8, 0.9 and 0.95. *)
Definition f32_0_8 : Q := 13421773 # 16777216.
Definition f32_0_9 : Q := 7549747 # 8388608.
Definition f32_0_95 : Q := 15938355 # 16777216.

(** The double nearest to 0.8, the value of the Python literal [0.8]. *)
Definition double_0_8 : Q := 3602879701896397 # 4503599627370496.

Definition box_of_Q (xmin ymin xmax ymax : Q) : box :=
  (F32 xmin, F32 ymin, F32 xmax, F32 ymax).

(** A frame on which the detector finds nothing above the threshold 0.9:
    one detection exactly at float32(0.9) and one at 0.5. *)
Definition quiet_frame (px : nat) (t0 t1 : Q) : FrameIn :=
  {| f_pixels := px;
     f_detect :=
       inr {| scores := [f32_0_9; 1 # 2]%Q;
              labels := [1; 3];
              boxes := [box_of_Q 10 20 110 220; box_of_Q 0 0 50 50] |};
     f_start := t0;
     f_end := t1 |}.

(** A frame with three detections, of scores float32(0.95), float32(0.9)
    and 0.5. *)
Definition busy_frame (px : nat) (t0 t1 : Q) : FrameIn :=
  {| f_pixels := px;
     f_detect :=
       inr {| scores := [f32_0_95; f32_0_9; 1 # 2]%Q;
              labels := [1; 3; 1];
              boxes := [box_of_Q 10 20 110 220; box_of_Q 0 0 50 50;
                        box_of_Q 5 5 6 6] |};
     f_start := t0;
     f_end := t1 |}.

Definition video_of (reads : list ReadResult) : Video :=
  {| v_width := 640; v_height := 480; v_fps := 30;
     v_frame_count := Z.of_nat (length reads); v_reads := reads |}.

(** A source that opens and holds no frame. *)
Definition empty_video : Video := video_of [].

(** One frame, handled in half a second. *)
Definition one_frame_video : Video :=
  video_of [RetFrame (quiet_frame 0 0 (1 # 2))].

(** One frame whose two clock readings coincide. *)
Definition instant_video : Video :=
  video_of [RetFrame (quiet_frame 0 (7 # 1) (7 # 1))].

(** Ten frames; the fifth read raises. *)
Definition broken_video : Video :=
  {| v_width := 640; v_height := 480; v_fps := 30; v_frame_count := 10;
     v_reads :=
       [RetFrame (quiet_frame 0 0 (1 # 2)); RetFrame (quiet_frame 1 1 (3 # 2));
        RetFrame (quiet_frame 2 2 (5 # 2)); RetFrame (quiet_frame 3 3 (7 # 2));
        ReadRaises (LibraryError "decode");
        RetFrame (quiet_frame 5 5 (11 # 2)); RetFrame (quiet_frame 6 6 (13 # 2));
        RetFrame (quiet_frame 7 7 (15 # 2)); RetFrame (quiet_frame 8 8 (17 # 2));
        RetFrame (quiet_frame 9 9 (19 # 2))] |}.


Definition busy_video : Video :=
  video_of [RetFrame (busy_frame 0 0 (1 # 2))].

(** A frame whose only detection has the score float32(0.8), and the
    video made of it. *)
Definition edge_frame (px : nat) (t0 t1 : Q) : FrameIn :=
  {| f_pixels := px;
     f_detect :=
       inr {| scores := [f32_0_8];
              labels := [1];
              boxes := [box_of_Q 10 20 110 220] |};
     f_start := t0;
     f_end := t1 |}.

Definition edge_video : Video :=
  video_of [RetFrame (edge_frame 0 0 (1 # 2)%Q)].

(** ** Helpers for stating properties of the loop *)

(** The frames the loop can reach: those read before the first read that
    returns [ret = False] or raises. *)
Fixpoint leading_frames (reads : list ReadResult) : list FrameIn :=
  match reads with
  | RetFrame fi :: rest => fi :: leading_frames rest
  | _ => []
  end.

(** [cap] with another sequence of reads. *)
Definition with_reads (cap : Video) (reads : list ReadResult) : Video :=
  {| v_width := v_width cap; v_height := v_height cap; v_fps := v_fps cap;
     v_frame_count := v_frame_count cap; v_reads := reads |}.

(** [w] with another answer to [cv2.VideoCapture]. *)
Definition with_source (w : World) (source : string -> option Video) : World :=
  {| mps_available := mps_available w;
     bitgen := bitgen w;
     rng0 := rng0 w;
     id2label := id2label w;
     getTextSize := getTextSize w;
     VideoCapture := source;
     VideoWriter_isOpened := VideoWriter_isOpened w |}.

(** The sum the loop builds in [total_fps]. *)
Definition sum_fps (frames : list FrameIn) (start : Q) : Q :=
  fold_left (fun acc fi => (acc + 1 / (f_end fi - f_start fi))%Q) frames start.

Definition no_read_raises (reads : list ReadResult) : Prop :=
  forall e, ~ In (ReadRaises e) reads.

Definition is_empty_cache (ev : event) : bool :=
  match ev with EmptyCache => true | _ => false end.

Definition is_gc_collect (ev : event) : bool :=
  match ev with GcCollect => true | _ => false end.

Definition is_pbar_update (ev : event) : bool :=
  match ev with PbarUpdate => true | _ => false end.

Definition box_of (d : box * Z * Q) : box := fst (fst d).


(** The points of the three drawing calls of a detection fit C ints,
    whatever the label text measures at. *)
Definition detection_fits (w : World) (d : box * Z * Q) : Prop :=
  match box_of d with
  | (F32 xmin, F32 ymin, F32 xmax, F32 ymax) =>
      c_int (py_int_Q xmin) = true /\ c_int (py_int_Q ymin) = true
      /\ c_int (py_int_Q xmax) = true /\ c_int (py_int_Q ymax) = true
      /\ forall txt scale,
           let '((tw, th), bl) := getTextSize w txt scale 1 in
           c_int (py_int_Q ymin - th - bl - 5) = true
           /\ c_int (py_int_Q xmin + tw) = true
           /\ c_int (py_int_Q ymin - bl - 2) = true
  | _ => False
  end.

(** The detections of [res] with a score above [threshold]. *)
Definition kept (threshold : Q) (res : Results) : list (box * Z * Q) :=
  List.filter (above threshold)
    (zip3 (boxes res) (labels res) (scores res)).

(** The detections of [res] that pass the filter of the loop. *)
Definition selected (threshold : Q) (res : Results) : list (box * Z * Q) :=
  List.filter (above32 (to_float32 threshold))
    (zip3 (boxes res) (labels res) (scores res)).


(** ** [display_mp4] *)

Module Display.

Inductive display_event : Type :=
| DCapOpen (path : string)
| DPrintError            (* print("Error opening video file") *)
| DRead
| DShow (px : nat)       (* cv2.imshow('Frame', frame) *)
| DWaitKey (delay : Z)
| DRelease
| DDestroyAllWindows.

Definition ord_q : Z := 113.

(** [cv2.waitKey(25) & 0xFF == ord('q')] *)
Definition quit_key (key : Z) : bool := Z.land key 255 =? ord_q.

(** The answers of the successive [waitKey] calls are [keys]; past their
    end no key is pressed and [waitKey] answers -1. *)
Fixpoint display_loop (reads : list ReadResult) (keys : list Z)
  : (exn + unit) * list display_event :=
  match reads with
  | RetFrame fi :: rest =>
      let key := hd (-1) keys in
      if quit_key key
      then (inr tt, [DRead; DShow (f_pixels fi); DWaitKey 25])
      else
        let '(r, t) := display_loop rest (tl keys) in
        (r, DRead :: DShow (f_pixels fi) :: DWaitKey 25 :: t)
  | ReadRaises e :: _ => (inl e, [DRead])
  | _ => (inr tt, [DRead])
  end.

Definition display_mp4 (w : World) (video_path : string) (keys : list Z)
  : (exn + unit) * list display_event :=
  match VideoCapture w video_path with
  | None =>
      (inr tt, [DCapOpen video_path; DPrintError; DRelease; DDestroyAllWindows])
  | Some cap =>
      let '(r, t) := display_loop (v_reads cap) keys in
      match r with
      | inl e => (inl e, DCapOpen video_path :: t)
      | inr _ =>
          (inr tt, DCapOpen video_path :: t ++ [DRelease; DDestroyAllWindows])
      end
  end.

Definition shown (tr : list display_event) : list nat :=
  omap (fun ev => match ev with DShow px => Some px | _ => None end) tr.

End Display.

(** * Properties *)

(** ** Label sizing *)

Section LabelSize.

Local Open Scope R_scope.

Lemma Rsign_pos r : 0 < r -> Rsign r = Gt.
Proof.
  intros H. unfold Rsign.
  destruct (Rlt_dec r 0); [lra|]. destruct (Rlt_dec 0 r); [reflexivity|lra].
Qed.

Lemma box_size_ratio_finite bw bh fw fh :
  fw * fh <> 0 ->
  box_size_ratio (Fin bw) (Fin bh) (Fin fw) (Fin fh)
  = Fin (bw * bh / (fw * fh)).
Proof.
  intros H. unfold box_size_ratio. simpl.
  destruct (Req_dec_T (fw * fh) 0); [contradiction|reflexivity].
Qed.

Lemma font_scale_unclipped_finite r mn mx :
  0 < 1 + r * 100 ->
  font_scale_unclipped (Fin r) (Fin mn) (Fin mx)
  = Fin (mn + ln (1 + r * 100) / 5 * (mx + - mn)).
Proof.
  intros H. unfold font_scale_unclipped. simpl.
  rewrite (Rsign_pos _ H). simpl.
  destruct (Req_dec_T 5 0); [lra|reflexivity].
Qed.

Lemma np_clip_finite x lo hi :
  np_clip (Fin x) (Fin lo) (Fin hi) = Fin (Rmin hi (Rmax x lo)).
Proof.
  unfold np_clip, np_maximum, np_le, Rmax.
  destruct (Rle_dec x lo); unfold np_minimum, np_le, Rmin;
    match goal with |- context [Rle_dec ?a ?b] => destruct (Rle_dec a b) end;
    reflexivity.
Qed.

Lemma spec_clamp_minmax x lo hi :
  lo <= hi -> spec_clamp x lo hi = Rmin hi (Rmax x lo).
Proof.
  intros H. unfold spec_clamp, Rmin, Rmax.
  destruct (Rlt_dec x lo), (Rle_dec x lo); try lra;
    destruct (Rle_dec hi lo); try lra;
    try (destruct (Rlt_dec hi x)); try (destruct (Rle_dec hi x)); lra.
Qed.

Lemma ratio_nonneg bw bh fw fh :
  0 <= bw -> 0 <= bh -> 0 < fw -> 0 < fh -> 0 <= bw * bh / (fw * fh).
Proof.
  intros. apply Rmult_le_pos; [nra|].
  left. apply Rinv_0_lt_compat. nra.
Qed.

Lemma calculate_label_size_finite bw bh fw fh mn mx :
  0 <= bw -> 0 <= bh -> 0 < fw -> 0 < fh ->
  calculate_label_size (Fin bw) (Fin bh) (Fin fw) (Fin fh) (Fin mn) (Fin mx)
  = Fin (Rmin mx (Rmax (mn + ln (1 + bw * bh / (fw * fh) * 100) / 5 * (mx + - mn)) mn)).
Proof.
  intros Hbw Hbh Hfw Hfh. unfold calculate_label_size.
  pose proof (ratio_nonneg bw bh fw fh Hbw Hbh Hfw Hfh) as Hr.
  rewrite box_size_ratio_finite by nra.
  rewrite font_scale_unclipped_finite by lra.
  apply np_clip_finite.
Qed.

Lemma ln_le_mono x y : 0 < x -> x <= y -> ln x <= ln y.
Proof.
  intros Hx [Hlt|Heq].
  - left. apply ln_increasing; assumption.
  - subst. lra.
Qed.

Lemma exp_nat_mul (n : nat) x : exp (INR n * x) = exp x ^ n.
Proof.
  induction n as [|n IH].
  - simpl. rewrite Rmult_0_l. apply exp_0.
  - rewrite S_INR, Rmult_plus_distr_r, Rmult_1_l, exp_plus, IH. simpl. ring.
Qed.

(** ln 101 < 5, from exp (1/8) > 9/8 and (9/8)^40 > 101. *)
Lemma ln_101_lt_5 : ln 101 < 5.
Proof.
  rewrite <- (ln_exp 5). apply ln_increasing; [lra|].
  replace 5 with (INR 40 * (1 / 8)) by (simpl; lra).
  rewrite exp_nat_mul.
  assert (H : 1 + 1 / 8 < exp (1 / 8)) by (apply exp_ineq1; lra).
  apply Rlt_le_trans with ((1 + 1 / 8) ^ 40).
  - simpl. lra.
  - apply pow_incr. lra.
Qed.

Lemma label_scale_in_range bw bh fw fh mn mx :
  mn <= mx ->
  mn <= spec_label_scale bw bh fw fh mn mx <= mx.
Proof.
  intros H. unfold spec_label_scale, spec_clamp.
  destruct (Rlt_dec _ mn); [lra|]. destruct (Rlt_dec mx _); lra.
Qed.

Lemma spec_clamp_mono x y lo hi :
  lo <= hi -> x <= y -> spec_clamp x lo hi <= spec_clamp y lo hi.
Proof.
  intros Hb Hxy. unfold spec_clamp.
  destruct (Rlt_dec x lo), (Rlt_dec y lo); try lra;
    destruct (Rlt_dec hi x), (Rlt_dec hi y); lra.
Qed.

Lemma label_scale_mono bw bh bw' bh' fw fh mn mx :
  0 <= bw -> 0 <= bh -> 0 < fw -> 0 < fh -> mn <= mx ->
  bw * bh <= bw' * bh' ->
  spec_label_scale bw bh fw fh mn mx <= spec_label_scale bw' bh' fw fh mn mx.
Proof.
  intros Hbw Hbh Hfw Hfh Hm Ha. unfold spec_label_scale.
  apply spec_clamp_mono; [assumption|].
  pose proof (ratio_nonneg bw bh fw fh Hbw Hbh Hfw Hfh) as Hr.
  assert (Hinv : 0 < / (fw * fh)) by (apply Rinv_0_lt_compat; nra).
  assert (Hrr : bw * bh / (fw * fh) <= bw' * bh' / (fw * fh)).
  { unfold Rdiv. apply Rmult_le_compat_r; lra. }
  assert (Hln : ln (1 + 100 * (bw * bh / (fw * fh)))
                <= ln (1 + 100 * (bw' * bh' / (fw * fh)))).
  { apply ln_le_mono; lra. }
  nra.
Qed.

Lemma calculate_label_size_refines bw bh fw fh mn mx :
  0 <= bw -> 0 <= bh -> 0 < fw -> 0 < fh -> mn <= mx ->
  calculate_label_size (Fin bw) (Fin bh) (Fin fw) (Fin fh) (Fin mn) (Fin mx)
  = Fin (spec_label_scale bw bh fw fh mn mx).
Proof.
  intros Hbw Hbh Hfw Hfh Hm.
  rewrite calculate_label_size_finite by assumption.
  unfold spec_label_scale. rewrite spec_clamp_minmax by assumption.
  replace (1 + 100 * (bw * bh / (fw * fh)))
    with (1 + bw * bh / (fw * fh) * 100) by ring.
  replace (mx - mn) with (mx + - mn) by ring.
  reflexivity.
Qed.

(** C5.  On non-negative box sides, positive frame sides and
    [min_scale <= max_scale], [calculate_label_size] returns the clamped
    logarithmic formula of the specification; the result lies in
    [[min_scale, max_scale]], does not decrease when the box area grows,
    is not NaN (in particular for a box side of 0), and a box of area 0
    gets 0.4 under the default scales. *)
Theorem calculate_label_size_spec (bw bh fw fh mn mx : R) :
  0 <= bw -> 0 <= bh -> 0 < fw -> 0 < fh -> mn <= mx ->
  let s := calculate_label_size (Fin bw) (Fin bh) (Fin fw) (Fin fh)
             (Fin mn) (Fin mx) in
  s = Fin (spec_label_scale bw bh fw fh mn mx)
  /\ np_le (Fin mn) s = true /\ np_le s (Fin mx) = true
  /\ (forall bw' bh', 0 <= bw' -> 0 <= bh' -> bw * bh <= bw' * bh' ->
        np_le s (calculate_label_size (Fin bw') (Fin bh') (Fin fw) (Fin fh)
                   (Fin mn) (Fin mx)) = true)
  /\ is_nan s = false
  /\ calculate_label_size (Fin 0) (Fin 0) (Fin fw) (Fin fh)
       default_min_scale default_max_scale = Fin (4 / 10).
Proof.
  intros Hbw Hbh Hfw Hfh Hm s. subst s.
  rewrite calculate_label_size_refines by assumption.
  pose proof (label_scale_in_range bw bh fw fh mn mx Hm) as [Hlo Hhi].
  repeat split.
  - simpl. destruct (Rle_dec _ _); [reflexivity|contradiction].
  - simpl. destruct (Rle_dec _ _); [reflexivity|contradiction].
  - intros bw' bh' Hbw' Hbh' Ha.
    rewrite calculate_label_size_refines by assumption.
    pose proof (label_scale_mono bw bh bw' bh' fw fh mn mx
                  Hbw Hbh Hfw Hfh Hm Ha) as Hmono.
    simpl. destruct (Rle_dec _ _); [reflexivity|contradiction].
  - unfold default_min_scale, default_max_scale.
    rewrite calculate_label_size_refines by lra.
    f_equal. unfold spec_label_scale, spec_clamp.
    replace (0 * 0 / (fw * fh)) with 0 by (unfold Rdiv; ring).
    replace (1 + 100 * 0) with 1 by ring. rewrite ln_1.
    destruct (Rlt_dec _ _); [lra|]. destruct (Rlt_dec _ _); lra.
Qed.

Lemma calculate_label_size_spec_witness :
  calculate_label_size (Fin 0) (Fin 50) (Fin 640) (Fin 480)
    (Fin (4 / 10)) (Fin (12 / 10))
  = Fin (spec_label_scale 0 50 640 480 (4 / 10) (12 / 10)).
Proof.
  apply (calculate_label_size_spec 0 50 640 480 (4 / 10) (12 / 10)); lra.
Defined.

(** C10.  A box no larger than the frame has an unclipped scale of at most
    [min_scale + (ln 101 / 5) * (max_scale - min_scale)]; as ln 101 / 5 < 1
    the upper clamp leaves it unchanged, and the returned scale is strictly
    below [max_scale] when [min_scale < max_scale]. *)
Theorem calculate_label_size_below_max (bw bh fw fh mn mx : R) :
  0 <= bw -> 0 <= bh -> 0 < fw -> 0 < fh -> mn <= mx ->
  bw * bh <= fw * fh ->
  exists v : R,
    font_scale_unclipped
      (box_size_ratio (Fin bw) (Fin bh) (Fin fw) (Fin fh)) (Fin mn) (Fin mx)
    = Fin v
    /\ v <= mn + ln 101 / 5 * (mx - mn)
    /\ ln 101 / 5 < 1
    /\ v <= mx
    /\ calculate_label_size (Fin bw) (Fin bh) (Fin fw) (Fin fh) (Fin mn) (Fin mx)
       = Fin (Rmax v mn)
    /\ (mn < mx -> Rmax v mn < mx).
Proof.
  intros Hbw Hbh Hfw Hfh Hm Ha.
  pose proof (ratio_nonneg bw bh fw fh Hbw Hbh Hfw Hfh) as Hr.
  assert (Hinv : 0 < / (fw * fh)) by (apply Rinv_0_lt_compat; nra).
  assert (Hr1 : bw * bh / (fw * fh) <= 1).
  { unfold Rdiv. apply Rmult_le_reg_r with (fw * fh); [nra|].
    rewrite Rmult_assoc, Rinv_l by nra. lra. }
  assert (Hln : ln (1 + bw * bh / (fw * fh) * 100) <= ln 101).
  { apply ln_le_mono; lra. }
  pose proof ln_101_lt_5 as H5.
  exists (mn + ln (1 + bw * bh / (fw * fh) * 100) / 5 * (mx + - mn)).
  assert (Hv : mn + ln (1 + bw * bh / (fw * fh) * 100) / 5 * (mx + - mn)
               <= mn + ln 101 / 5 * (mx - mn)) by nra.
  assert (Hmx : mn + ln 101 / 5 * (mx - mn) <= mx) by nra.
  split; [|split; [|split; [|split; [|split]]]].
  - rewrite box_size_ratio_finite by nra.
    apply font_scale_unclipped_finite. lra.
  - exact Hv.
  - lra.
  - lra.
  - rewrite calculate_label_size_finite by assumption.
    f_equal. apply Rmin_right. unfold Rmax. destruct (Rle_dec _ _); lra.
  - intros Hlt.
    assert (mn + ln 101 / 5 * (mx - mn) < mx) by nra.
    unfold Rmax. destruct (Rle_dec _ _); lra.
Qed.

Lemma calculate_label_size_below_max_witness :
  exists v : R,
    calculate_label_size (Fin 640) (Fin 480) (Fin 640) (Fin 480)
      (Fin (4 / 10)) (Fin (12 / 10)) = Fin (Rmax v (4 / 10))
    /\ Rmax v (4 / 10) < 12 / 10.
Proof.
  destruct (calculate_label_size_below_max 640 480 640 480 (4 / 10) (12 / 10))
    as (v & _ & _ & _ & _ & Hc & Hlt); try lra.
  exists v. split; [exact Hc|apply Hlt; lra].
Defined.

End LabelSize.

(** ** Colour palette *)

Section Palette.

Lemma randint3_0_255 (st : rng_state) :
  randint3 0 255 st
  = ((st 0%nat mod 255, st 1%nat mod 255, st 2%nat mod 255),
     fun n => st (3 + n)%nat).
Proof. reflexivity. Qed.

Lemma palette_of_seq (len : nat) :
  forall (a : nat) (acc : gmap Z color) (st : rng_state) (k : Z),
    fst (palette_of (map Z.of_nat (seq a len)) acc st) !! k
    = if decide (Z.of_nat a <= k < Z.of_nat (a + len))
      then Some (drawn_color st (Z.to_nat k - a))
      else acc !! k.
Proof.
  induction len as [|len IH]; intros a acc st k.
  - simpl. case_decide; [lia|reflexivity].
  - cbn [seq map palette_of]. rewrite randint3_0_255.
    rewrite IH. clear IH.
    destruct (decide (k = Z.of_nat a)) as [->|Hne].
    + rewrite decide_False by lia. rewrite decide_True by lia.
      rewrite lookup_insert_eq.
      replace (Z.to_nat (Z.of_nat a) - a)%nat with 0%nat by lia.
      reflexivity.
    + rewrite lookup_insert_ne by congruence.
      case_decide as H1; case_decide as H2; try lia; try reflexivity.
      unfold drawn_color.
      replace (Z.to_nat k - a)%nat with (S (Z.to_nat k - S a))%nat by lia.
      set (x := (Z.to_nat k - S a)%nat).
      replace (3 * S x)%nat with (3 + 3 * x)%nat by lia.
      replace (3 + 3 * x + 1)%nat with (3 + (3 * x + 1))%nat by lia.
      replace (3 + 3 * x + 2)%nat with (3 + (3 * x + 2))%nat by lia.
      reflexivity.
Qed.

Lemma generate_color_palette_lookup (bg : bit_generator) (n : Z)
    (st : rng_state) (k : Z) :
  fst (generate_color_palette bg n st) !! k
  = if decide (0 <= k < n) then Some (drawn_color (bg 42) (Z.to_nat k))
    else None.
Proof.
  unfold generate_color_palette, py_range, NpRandom.seed.
  rewrite palette_of_seq. rewrite lookup_empty.
  change (Z.of_nat 0) with 0.
  case_decide as H1; case_decide as H2; try lia; try reflexivity.
  replace (Z.to_nat k - 0)%nat with (Z.to_nat k) by lia. reflexivity.
Qed.

(** C6.  The palette does not depend on the state the global generator is
    in when [generate_color_palette] is called: the call reseeds it with
    42.  Two calls with the same [num_classes], one after the other or in
    different runs, give the same mapping; so do two evaluations of the
    91-class palette [colors]. *)
Theorem generate_color_palette_deterministic (bg : bit_generator)
    (num_classes : Z) (st1 st2 : rng_state) :
  generate_color_palette bg num_classes st1
  = generate_color_palette bg num_classes st2
  /\ fst (generate_color_palette bg num_classes
            (snd (generate_color_palette bg num_classes st1)))
     = fst (generate_color_palette bg num_classes st1)
  /\ colors bg st1 = colors bg st2.
Proof. repeat split. Qed.

(** C8.  Every channel of every palette colour lies in 0..254: the upper
    bound 255 of [np.random.randint(0, 255, 3)] is exclusive, so the value
    255 is never drawn. *)
Theorem generate_color_palette_channels (bg : bit_generator)
    (num_classes : Z) (st : rng_state) (label r g b : Z) :
  fst (generate_color_palette bg num_classes st) !! label = Some (r, g, b) ->
  (0 <= r <= 254 /\ 0 <= g <= 254 /\ 0 <= b <= 254)
  /\ r <> 255 /\ g <> 255 /\ b <> 255.
Proof.
  rewrite generate_color_palette_lookup.
  case_decide; [|discriminate].
  assert (Hb : forall z, 0 <= z mod 255 <= 254 /\ z mod 255 <> 255).
  { intros z. pose proof (Z.mod_pos_bound z 255). lia. }
  unfold drawn_color. intros [= <- <- <-].
  repeat split; apply Hb.
Qed.

Lemma generate_color_palette_channels_witness :
  fst (generate_color_palette sample_bitgen 91 sample_rng) !! 7
  = Some (135, 240, 90)
  /\ 135 <> 255.
Proof.
  assert (H : fst (generate_color_palette sample_bitgen 91 sample_rng) !! 7
              = Some (135, 240, 90)) by (vm_compute; reflexivity).
  split; [exact H|].
  apply (generate_color_palette_channels sample_bitgen 91 sample_rng 7
           135 240 90 H).
Defined.

(** Each of 0..254 does occur, in any channel of any label, and the
    colours of two labels come from disjoint draws: any choice of in-range
    colours for the labels is the palette of some bit generator. *)
Lemma generate_color_palette_any (num_classes : Z) (st : rng_state)
    (choice : Z -> color) :
  (forall k, 0 <= k < num_classes ->
     let '(r, g, b) := choice k in
     0 <= r <= 254 /\ 0 <= g <= 254 /\ 0 <= b <= 254) ->
  exists bg : bit_generator,
    forall k, 0 <= k < num_classes ->
      fst (generate_color_palette bg num_classes st) !! k = Some (choice k).
Proof.
  intros Hc.
  exists (fun _ n =>
            let '(r, g, b) := choice (Z.of_nat (n / 3)) in
            match (n mod 3)%nat with
            | 0%nat => r
            | 1%nat => g
            | _ => b
            end).
  intros k Hk. rewrite generate_color_palette_lookup.
  rewrite decide_True by assumption. unfold drawn_color.
  set (i := Z.to_nat k).
  assert (E0 : ((3 * i) / 3 = i)%nat)
    by (rewrite Nat.mul_comm; apply Nat.div_mul; lia).
  assert (E1 : ((3 * i + 1) / 3 = i)%nat)
    by (rewrite Nat.mul_comm, Nat.div_add_l by lia; simpl; lia).
  assert (E2 : ((3 * i + 2) / 3 = i)%nat)
    by (rewrite Nat.mul_comm, Nat.div_add_l by lia; simpl; lia).
  assert (M0 : ((3 * i) mod 3 = 0)%nat)
    by (rewrite Nat.mul_comm; apply Nat.Div0.mod_mul).
  assert (M1 : ((3 * i + 1) mod 3 = 1)%nat)
    by (rewrite Nat.add_comm, Nat.mul_comm, Nat.Div0.mod_add; reflexivity).
  assert (M2 : ((3 * i + 2) mod 3 = 2)%nat)
    by (rewrite Nat.add_comm, Nat.mul_comm, Nat.Div0.mod_add; reflexivity).
  rewrite E0, E1, E2, M0, M1, M2.
  replace (Z.of_nat i) with k by (subst i; lia).
  specialize (Hc k Hk). destruct (choice k) as [[r g] b].
  rewrite !Z.mod_small by lia. reflexivity.
Qed.

(** C9.  [get_label_color] returns the palette entry of a label that is a
    key and pure green (0, 255, 0) for any other label; the keys of the
    generated palette are the labels of [range(num_classes)], so label 999
    of the 91-class palette gets the default. *)
Theorem get_label_color_fallback (bg : bit_generator) (num_classes : Z)
    (st : rng_state) (label : Z) :
  let palette := fst (generate_color_palette bg num_classes st) in
  (palette !! label = None -> get_label_color palette label = (0, 255, 0))
  /\ (forall c, palette !! label = Some c -> get_label_color palette label = c)
  /\ (palette !! label = None <-> ~ (0 <= label < num_classes))
  /\ get_label_color (colors bg st) 999 = (0, 255, 0).
Proof.
  intros palette. unfold get_label_color.
  split; [|split; [|split]].
  - intros ->. reflexivity.
  - intros c ->. reflexivity.
  - subst palette. rewrite generate_color_palette_lookup.
    case_decide; split; intros; try reflexivity; try discriminate; tauto.
  - unfold colors. rewrite generate_color_palette_lookup.
    rewrite decide_False by lia. reflexivity.
Qed.

Lemma get_label_color_fallback_witness :
  fst (generate_color_palette sample_bitgen 91 sample_rng) !! 999 = None
  /\ get_label_color (fst (generate_color_palette sample_bitgen 91 sample_rng))
       999 = (0, 255, 0).
Proof.
  assert (H : fst (generate_color_palette sample_bitgen 91 sample_rng) !! 999
              = None) by (vm_compute; reflexivity).
  split; [exact H|].
  exact (proj1 (get_label_color_fallback sample_bitgen 91 sample_rng 999) H).
Defined.

End Palette.

(** ** Computations *)

Section Computations.

Context {A B : Type}.

Lemma bind_result (m : M A) (k : A -> M B) :
  fst (bind m k)
  = match fst m with inl e => inl e | inr a => fst (k a) end.
Proof.
  destruct m as [[e|a] t]; simpl; [reflexivity|].
  destruct (k a); reflexivity.
Qed.

Lemma bind_trace (m : M A) (k : A -> M B) :
  snd (bind m k)
  = snd m ++ match fst m with inl _ => [] | inr a => snd (k a) end.
Proof.
  destruct m as [[e|a] t]; simpl; [symmetry; apply app_nil_r|].
  destruct (k a); reflexivity.
Qed.

Lemma bind_emit (ev : event) (k : unit -> M B) :
  bind (emit ev) k = (fst (k tt), ev :: snd (k tt)).
Proof. unfold bind, emit. destruct (k tt); reflexivity. Qed.

End Computations.

Lemma finalize_eq :
  finalize
  = (inr tt, [PbarClose; CapRelease; OutRelease; DestroyAllWindows;
              EmptyCache; GcCollect; ModelTo Cpu]).
Proof. reflexivity. Qed.

(** ** Filtering by confidence *)

Section Filtering.

Lemma Qgt_bool_spec (s t : Q) : Qgt_bool s t = true <-> (t < s)%Q.
Proof.
  unfold Qgt_bool. rewrite negb_true_iff.
  destruct (Qle_bool s t) eqn:E.
  - apply Qle_bool_iff in E. split; [discriminate|].
    intros H. exfalso. apply (Qlt_not_le _ _ H E).
  - split; [intros _|reflexivity].
    apply Qnot_le_lt. intros H. apply Qle_bool_iff in H. congruence.
Qed.

(** Masking the three arrays and zipping them is filtering the zipped
    detections. *)
Lemma zip3_select (t : Q) (scs : list Q) :
  forall (bxs : list box) (lbls : list Z),
    length bxs = length scs -> length lbls = length scs ->
    zip3 (select bxs (keep_mask scs t)) (select lbls (keep_mask scs t))
         (select scs (keep_mask scs t))
    = List.filter (above32 (to_float32 t)) (zip3 bxs lbls scs).
Proof.
  unfold keep_mask. generalize (to_float32 t) as t32. intros t32.
  induction scs as [|s scs IH]; intros bxs lbls Hb Hl.
  - destruct bxs, lbls; reflexivity.
  - destruct bxs as [|b bxs]; [discriminate|].
    destruct lbls as [|l lbls]; [discriminate|].
    cbn [length] in Hb, Hl. cbn [map select zip3 List.filter].
    unfold above32 at 1. cbn [snd].
    destruct (gt32 s t32); cbn [zip3]; rewrite IH by lia; reflexivity.
Qed.

Lemma keep_mask_length scs t : length (keep_mask scs t) = length scs.
Proof. unfold keep_mask. apply length_map. Qed.

Lemma mask_index_inr {X} (xs : list X) keep ys :
  mask_index xs keep = inr ys ->
  length xs = length keep /\ ys = select xs keep.
Proof.
  unfold mask_index. destruct (Nat.eqb_spec (length xs) (length keep)).
  - intros [= <-]. split; [assumption|reflexivity].
  - discriminate.
Qed.

Lemma cv_draw_checked_inr f c f' :
  cv_draw_checked f c = inr f' -> f' = cv_draw f c /\ call_fits c = true.
Proof.
  unfold cv_draw_checked. destruct (call_fits c); [|discriminate].
  intros [= <-]. split; reflexivity.
Qed.

(** What a detection that was drawn went through. *)
Lemma draw_detection_inr w pal fw fh fr xmin ymin xmax ymax label score fr' :
  draw_detection w pal fw fh fr ((xmin, ymin, xmax, ymax), label, score)
  = inr fr' ->
  exists name x0 y0 x1 y1 t3 t15 tw th bl,
    let fs :=
      calculate_label_size (np32_to_np (np32_sub xmax xmin))
        (np32_to_np (np32_sub ymax ymin)) (Fin (IZR fw)) (Fin (IZR fh))
        default_min_scale default_max_scale in
    let r1 := Rectangle (x0, y0) (x1, y1) (get_label_color pal label)
                (Z.max 2 t3) in
    let r2 := Rectangle (x0, y0 - th - bl - 5) (x0 + tw, y0)
                (get_label_color pal label) (-1) in
    let p := PutText (LabelText name score) (x0, y0 - bl - 2) fs (0, 0, 0)
               (Z.max 1 t15) in
    id2label w !! label = Some name
    /\ getTextSize w (LabelText name score) fs 1 = ((tw, th), bl)
    /\ py_int32 xmin = inr x0 /\ py_int32 ymin = inr y0
    /\ py_int32 xmax = inr x1 /\ py_int32 ymax = inr y1
    /\ py_int (np_mul fs (Fin 3%R)) = inr t3
    /\ py_int (np_mul fs (Fin (15 / 10)%R)) = inr t15
    /\ call_fits r1 = true /\ call_fits r2 = true /\ call_fits p = true
    /\ fr' = cv_draw (cv_draw (cv_draw fr r1) r2) p.
Proof.
  unfold draw_detection, dict_getitem.
  destruct (id2label w !! label) as [name|]; [|discriminate].
  cbn [bind_exn].
  destruct (getTextSize _ _ _ _) as [[tw th] bl] eqn:Ets.
  destruct (py_int32 xmin) as [e|x0]; [discriminate|]. cbn [bind_exn].
  destruct (py_int32 ymin) as [e|y0]; [discriminate|]. cbn [bind_exn].
  destruct (py_int32 xmax) as [e|x1]; [discriminate|]. cbn [bind_exn].
  destruct (py_int32 ymax) as [e|y1]; [discriminate|]. cbn [bind_exn].
  destruct (py_int (np_mul _ (Fin 3%R))) as [e|t3] eqn:E3; [discriminate|].
  cbn [bind_exn].
  destruct (cv_draw_checked fr _) as [e|f1] eqn:E1; [discriminate|].
  cbn [bind_exn].
  destruct (cv_draw_checked f1 _) as [e|f2] eqn:E2; [discriminate|].
  cbn [bind_exn].
  destruct (py_int (np_mul _ (Fin (15 / 10)%R))) as [e|t15] eqn:E15;
    [discriminate|].
  cbn [bind_exn]. intros Ep.
  apply cv_draw_checked_inr in E1 as [-> H1].
  apply cv_draw_checked_inr in E2 as [-> H2].
  apply cv_draw_checked_inr in Ep as [-> Hp].
  exists name, x0, y0, x1, y1, t3, t15, tw, th, bl. cbv zeta.
  repeat (split; [first [reflexivity|assumption]|]). reflexivity.
Qed.

Lemma draw_detection_pixels w pal fw fh fr d fr' :
  draw_detection w pal fw fh fr d = inr fr' -> pixels fr' = pixels fr.
Proof.
  destruct d as [[[[[xmin ymin] xmax] ymax] l] s]. intros H.
  apply draw_detection_inr in H
    as (name & x0 & y0 & x1 & y1 & t3 & t15 & tw & th & bl & H).
  cbv zeta in H. destruct H as (_ & _ & _ & _ & _ & _ & _ & _ & _ & _ & _ & ->).
  reflexivity.
Qed.

Lemma draw_boxes_pixels w pal fw fh ds :
  forall fr fr', draw_boxes w pal fw fh fr ds = inr fr' ->
                 pixels fr' = pixels fr.
Proof.
  induction ds as [|d ds IH]; intros fr fr'; simpl.
  - intros [= <-]. reflexivity.
  - destruct (draw_detection w pal fw fh fr d) as [e|fr1] eqn:E;
      [discriminate|]. simpl.
    intros H. rewrite (IH _ _ H). eapply draw_detection_pixels; eassumption.
Qed.

Lemma detect_and_draw_inr w pal t fw fh fi fr0 :
  detect_and_draw w pal t fw fh fi = inr fr0 ->
  exists res,
    f_detect fi = inr res
    /\ length (boxes res) = length (scores res)
    /\ length (labels res) = length (scores res)
    /\ draw_boxes w pal fw fh {| pixels := f_pixels fi; drawn := [] |}
         (List.filter (above32 (to_float32 t))
            (zip3 (boxes res) (labels res) (scores res)))
       = inr fr0.
Proof.
  unfold detect_and_draw.
  destruct (f_detect fi) as [e|res]; [discriminate|]. simpl.
  destruct (mask_index (boxes res) _) as [e|bxs] eqn:Eb; [discriminate|].
  destruct (mask_index (labels res) _) as [e|lbls] eqn:El; [discriminate|].
  destruct (mask_index (scores res) _) as [e|scs] eqn:Es; [discriminate|].
  simpl. intros H. exists res.
  apply mask_index_inr in Eb as [Hb ->].
  apply mask_index_inr in El as [Hl ->].
  apply mask_index_inr in Es as [_ ->].
  rewrite keep_mask_length in Hb, Hl.
  rewrite zip3_select in H by assumption. auto.
Qed.

End Filtering.

(** ** The frame loop *)

Section Loop.

Variable w : World.
Variable palette : gmap Z color.
Variable threshold : Q.
Variables frame_width frame_height : Z.

Lemma process_frame_eq (fi : FrameIn) (l : Locals) :
  process_frame w palette threshold frame_width frame_height fi l
  = match detect_and_draw w palette threshold frame_width frame_height fi with
    | inl e => (inl e, [Detect (f_pixels fi)])
    | inr fr0 =>
        match py_div 1 (f_end fi - f_start fi)%Q with
        | inl e => (inl e, [Detect (f_pixels fi)])
        | inr fps' =>
            (inr {| frame_count := frame_count l + 1;
                    total_fps := (total_fps l + fps')%Q;
                    fps := fps';
                    pbar_n := pbar_n l + 1 |},
             Detect (f_pixels fi)
             :: Write (add_fps_counter w fr0 fps' frame_width)
             :: PbarUpdate
             :: (if (pbar_n l + 1) mod 100 =? 0
                 then [EmptyCache; GcCollect] else []))
        end
    end.
Proof.
  unfold process_frame.
  destruct (detect_and_draw _ _ _ _ _ _) as [e|fr0]; [reflexivity|].
  destruct (py_div _ _) as [e|fps']; [reflexivity|].
  destruct ((pbar_n l + 1) mod 100 =? 0); reflexivity.
Qed.

Lemma frame_loop_cons_frame fi rest l :
  frame_loop w palette threshold frame_width frame_height
    (RetFrame fi :: rest) l
  = let m := process_frame w palette threshold frame_width frame_height fi l in
    match fst m with
    | inl e => (inl e, CapRead :: snd m)
    | inr l' =>
        let k := frame_loop w palette threshold frame_width frame_height
                   rest l' in
        (fst k, CapRead :: snd m ++ snd k)
    end.
Proof.
  cbn [frame_loop]. rewrite bind_emit. cbv zeta.
  rewrite bind_result, bind_trace.
  destruct (process_frame _ _ _ _ _ _ _) as [[e|l'] tr]; simpl.
  - rewrite app_nil_r. reflexivity.
  - reflexivity.
Qed.

Lemma frame_loop_written_inv (fr : Frame) (reads : list ReadResult) :
  forall l,
    In (Write fr)
       (snd (frame_loop w palette threshold frame_width frame_height reads l)) ->
    exists fi fr0 fps',
      In (RetFrame fi) reads
      /\ detect_and_draw w palette threshold frame_width frame_height fi
         = inr fr0
      /\ py_div 1 (f_end fi - f_start fi)%Q = inr fps'
      /\ fr = add_fps_counter w fr0 fps' frame_width.
Proof.
  induction reads as [|r rest IH]; intros l.
  - simpl. intros [H|[]]. discriminate.
  - destruct r as [fi| |e].
    + rewrite frame_loop_cons_frame. cbv zeta. rewrite process_frame_eq.
      destruct (detect_and_draw _ _ _ _ _ fi) as [e|fr0] eqn:Ed.
      { simpl. intros [H|[H|[]]]; discriminate. }
      destruct (py_div _ _) as [e|fps'] eqn:Ef.
      { simpl. intros [H|[H|[]]]; discriminate. }
      cbn [fst snd]. intros [H|H]; [discriminate|].
      apply in_app_or in H as [H|H].
      * destruct H as [H|[H|[H|H]]]; try discriminate.
        -- injection H as <-. exists fi, fr0, fps'. simpl. auto.
        -- destruct (_ =? _); simpl in H; intuition discriminate.
      * apply IH in H as (fi' & fr0' & fps'' & Hin & H1 & H2 & H3).
        exists fi', fr0', fps''. simpl. auto.
    + simpl. intros [H|[]]. discriminate.
    + simpl. intros [H|[]]. discriminate.
Qed.

Lemma frame_loop_printed (reads : list ReadResult) :
  forall l,
    printed (snd (frame_loop w palette threshold frame_width frame_height
                    reads l)) = [].
Proof.
  induction reads as [|r rest IH]; intros l.
  - reflexivity.
  - destruct r as [fi| |e]; try reflexivity.
    rewrite frame_loop_cons_frame. cbv zeta. rewrite process_frame_eq.
    destruct (detect_and_draw _ _ _ _ _ fi) as [e|fr0]; [reflexivity|].
    destruct (py_div _ _) as [e|fps']; [reflexivity|].
    cbn [fst snd]. unfold printed in *.
    change (CapRead :: ?a ++ ?b) with ((CapRead :: a) ++ b).
    rewrite omap_app, IH, app_nil_r.
    destruct (_ =? _); reflexivity.
Qed.

(** The loop counts the frames it writes. *)
Lemma frame_loop_counts (reads : list ReadResult) :
  forall l l',
    fst (frame_loop w palette threshold frame_width frame_height reads l)
    = inr l' ->
    frame_count l'
    = frame_count l
      + Z.of_nat (length (written
          (snd (frame_loop w palette threshold frame_width frame_height
                  reads l)))).
Proof.
  induction reads as [|r rest IH]; intros l l'.
  - simpl. intros [= <-]. lia.
  - destruct r as [fi| |e]; try (simpl; intros [= <-]; lia);
      try (simpl; discriminate).
    rewrite frame_loop_cons_frame. cbv zeta. rewrite process_frame_eq.
    destruct (detect_and_draw _ _ _ _ _ fi) as [e|fr0]; [discriminate|].
    destruct (py_div _ _) as [e|fps']; [discriminate|].
    cbn [fst snd]. intros H. rewrite (IH _ _ H). cbn [frame_count].
    unfold written.
    change (CapRead :: ?a ++ ?b) with ((CapRead :: a) ++ b).
    rewrite omap_app, length_app.
    destruct (_ =? _); simpl; lia.
Qed.

End Loop.

(** ** [process_video] *)

Section ProcessVideo.

Lemma process_video_unopened w vp op t :
  VideoCapture w vp = None ->
  process_video w vp op t
  = (inl (ValueError "Error opening video file"),
     [Print (UsingDevice (device_of w)); ModelTo (device_of w); CapOpen vp]).
Proof. intros H. unfold process_video. rewrite H. reflexivity. Qed.

Lemma process_video_opened w vp op t cap :
  VideoCapture w vp = Some cap ->
  process_video w vp op t
  = match fst (main_loop w t cap) with
    | inl e =>
        (inl e,
         init_calls w vp op cap ++ snd (main_loop w t cap)
         ++ [Print (ErrorOccurred e)] ++ finalize_calls)
    | inr _ =>
        (inr tt,
         init_calls w vp op cap ++ snd (main_loop w t cap)
         ++ finalize_calls ++ [Print Completed])
    end.
Proof.
  intros H. unfold process_video. rewrite H.
  fold (initial_locals cap). fold (device_of w).
  change (frame_loop w _ t _ _ _ _) with (main_loop w t cap).
  rewrite finalize_eq.
  destruct (main_loop w t cap) as [[e|l] tr]; simpl;
    rewrite <- ?app_assoc; reflexivity.
Qed.

Lemma written_app tr1 tr2 : written (tr1 ++ tr2) = written tr1 ++ written tr2.
Proof. apply omap_app. Qed.

Lemma printed_app tr1 tr2 : printed (tr1 ++ tr2) = printed tr1 ++ printed tr2.
Proof. apply omap_app. Qed.

Lemma process_video_written_inv w vp op t fr :
  In (Write fr) (snd (process_video w vp op t)) ->
  exists cap,
    VideoCapture w vp = Some cap
    /\ In (Write fr) (snd (main_loop w t cap)).
Proof.
  destruct (VideoCapture w vp) as [cap|] eqn:E.
  - rewrite (process_video_opened _ _ _ _ _ E). intros H. exists cap.
    split; [reflexivity|].
    destruct (fst (main_loop w t cap)); cbn [snd] in H;
      apply in_app_or in H as [H|H];
      try (simpl in H; intuition discriminate);
      apply in_app_or in H as [H|H]; try assumption;
      simpl in H; intuition discriminate.
  - rewrite (process_video_unopened _ _ _ _ E). simpl.
    intuition discriminate.
Qed.

(** C1, as the code has it.  A frame that [process_video] writes carries
    the drawing of exactly the detections that pass
    [scores > threshold], a comparison NumPy makes in float32: a detection
    of the frame is drawn if and only if its score is strictly above the
    threshold rounded to float32, and a score equal to that rounded
    threshold is left out.  For a threshold that is a float32 value this
    is [threshold < c]. *)
Theorem process_video_renders_iff_above_threshold
    (w : World) (video_path output_path : string) (threshold : Q)
    (fr : Frame) :
  In (Write fr) (snd (process_video w video_path output_path threshold)) ->
  exists (cap : Video) (fi : FrameIn) (res : Results)
         (rendered : list (box * Z * Q)) (fr0 : Frame) (fps' : Q),
    VideoCapture w video_path = Some cap
    /\ In (RetFrame fi) (v_reads cap)
    /\ f_detect fi = inr res
    /\ pixels fr = f_pixels fi
    /\ draw_boxes w (colors (bitgen w) (rng0 w)) (v_width cap) (v_height cap)
         {| pixels := f_pixels fi; drawn := [] |} rendered = inr fr0
    /\ fr = add_fps_counter w fr0 fps' (v_width cap)
    /\ rendered
       = List.filter (above32 (to_float32 threshold))
           (zip3 (boxes res) (labels res) (scores res))
    /\ (forall d : box * Z * Q,
          In d (zip3 (boxes res) (labels res) (scores res)) ->
          (In d rendered <-> gt32 (snd d) (to_float32 threshold) = true))
    /\ (forall t32 : Q,
          to_float32 threshold = F32 t32 ->
          forall d : box * Z * Q,
            In d (zip3 (boxes res) (labels res) (scores res)) ->
            (In d rendered <-> (t32 < snd d)%Q)
            /\ ((snd d == t32)%Q -> ~ In d rendered)
            /\ ((t32 == threshold)%Q ->
                (In d rendered <-> (threshold < snd d)%Q))).
Proof.
  intros H.
  apply process_video_written_inv in H as (cap & Hcap & H).
  unfold main_loop in H.
  apply frame_loop_written_inv in H as (fi & fr0 & fps' & Hin & Hd & Hf & ->).
  apply detect_and_draw_inr in Hd as (res & Hres & Hb & Hl & Hdraw).
  exists cap, fi, res,
    (List.filter (above32 (to_float32 threshold))
       (zip3 (boxes res) (labels res) (scores res))), fr0, fps'.
  repeat (split; [solve [auto]|]).
  split.
  { unfold add_fps_counter.
    destruct (getTextSize _ _ _ _) as [[tw th] bl]. simpl.
    apply (draw_boxes_pixels _ _ _ _ _ _ _ Hdraw). }
  split; [assumption|]. split; [reflexivity|]. split; [reflexivity|].
  split.
  - intros d Hd. rewrite filter_In. unfold above32. tauto.
  - intros t32 Ht d Hd. rewrite filter_In, Ht. unfold above32, gt32.
    rewrite Qgt_bool_spec. split; [tauto|]. split.
    + intros Heq [_ Hlt]. rewrite Heq in Hlt. exact (Qlt_irrefl _ Hlt).
    + intros Heq. rewrite Heq. tauto.
Qed.

(** C2.  Once the source has opened, the calls of the [finally] block
    follow the calls of the loop on every exit.  When the loop raises [e],
    the error is printed, the source and the sink are released, the cache
    is emptied and the model moved to the CPU, and [process_video] raises
    the same [e]; the frames written before the exception stay written.
    When the loop ends normally the same calls are made and the function
    returns. *)
Theorem process_video_finalize_always
    (w : World) (video_path output_path : string) (threshold : Q)
    (cap : Video) :
  VideoCapture w video_path = Some cap ->
  let loop := main_loop w threshold cap in
  let run := process_video w video_path output_path threshold in
  (forall e, fst loop = inl e ->
     fst run = inl e
     /\ snd run
        = init_calls w video_path output_path cap ++ snd loop
          ++ [Print (ErrorOccurred e)]
          ++ [PbarClose; CapRelease; OutRelease; DestroyAllWindows;
              EmptyCache; GcCollect; ModelTo Cpu])
  /\ (forall l, fst loop = inr l ->
        fst run = inr tt
        /\ snd run
           = init_calls w video_path output_path cap ++ snd loop
             ++ [PbarClose; CapRelease; OutRelease; DestroyAllWindows;
                 EmptyCache; GcCollect; ModelTo Cpu]
             ++ [Print Completed])
  /\ (exists pre post,
        snd run
        = pre ++ [PbarClose; CapRelease; OutRelease; DestroyAllWindows;
                  EmptyCache; GcCollect; ModelTo Cpu] ++ post)
  /\ written (snd run) = written (snd loop).
Proof.
  intros Hcap loop run. subst run.
  rewrite (process_video_opened _ _ _ _ _ Hcap). fold loop. clearbody loop.
  assert (Hi : written (init_calls w video_path output_path cap) = [])
    by reflexivity.
  destruct (fst loop) as [e|l] eqn:E.
  - split; [|split; [|split]].
    + intros e' [= <-]. split; reflexivity.
    + intros l [=].
    + exists (init_calls w video_path output_path cap ++ snd loop
              ++ [Print (ErrorOccurred e)]), [].
      cbn [snd]. unfold finalize_calls.
      rewrite app_nil_r, <- !app_assoc. reflexivity.
    + cbn [snd]. rewrite !written_app, Hi. simpl.
      rewrite app_nil_r. reflexivity.
  - split; [|split; [|split]].
    + intros e [=].
    + intros l' _. split; reflexivity.
    + exists (init_calls w video_path output_path cap ++ snd loop),
        [Print Completed].
      cbn [snd]. unfold finalize_calls. rewrite <- !app_assoc. reflexivity.
    + cbn [snd]. rewrite !written_app, Hi. simpl.
      rewrite app_nil_r. reflexivity.
Qed.

End ProcessVideo.

(** ** Drawing is defined on well-formed detections *)

Section Drawing.

Lemma Q2R_diff_nonneg (a b : Q) : (a <= b)%Q -> (0 <= Q2R (b - a))%R.
Proof.
  intros H. unfold Qminus. rewrite Q2R_plus, Q2R_opp.
  apply Qle_Rle in H. lra.
Qed.

Lemma c_int_fits_rectangle x1 y1 x2 y2 col t :
  c_int x1 = true -> c_int y1 = true -> c_int x2 = true -> c_int y2 = true ->
  call_fits (Rectangle (x1, y1) (x2, y2) col t) = true.
Proof. intros H1 H2 H3 H4. cbn. rewrite H1, H2, H3, H4. reflexivity. Qed.

Lemma draw_detection_defined w pal fw fh fr xmin ymin xmax ymax label score name :
  id2label w !! label = Some name ->
  (xmin <= xmax)%Q -> (ymin <= ymax)%Q -> 0 < fw -> 0 < fh ->
  detection_fits w ((F32 xmin, F32 ymin, F32 xmax, F32 ymax), label, score) ->
  exists fr',
    draw_detection w pal fw fh fr
      ((F32 xmin, F32 ymin, F32 xmax, F32 ymax), label, score)
    = inr fr'.
Proof.
  intros Hname Hx Hy Hfw Hfh Hfit. unfold draw_detection, dict_getitem.
  rewrite Hname. cbn [bind_exn np32_sub np32_to_np py_int32].
  unfold default_min_scale, default_max_scale.
  rewrite calculate_label_size_finite;
    try (apply Q2R_diff_nonneg; assumption);
    try (apply IZR_lt; assumption).
  cbn [detection_fits box_of fst] in Hfit.
  destruct Hfit as (Hx0 & Hy0 & Hx1 & Hy1 & Htxt).
  match goal with
  | |- context [getTextSize w ?txt ?fs 1] => specialize (Htxt txt fs)
  end.
  destruct (getTextSize _ _ _ _) as [[tw th] bl].
  destruct Htxt as (Ha & Hb & Hc).
  cbn [np_mul py_int bind_exn]. unfold cv_draw_checked.
  rewrite c_int_fits_rectangle by assumption. cbn [bind_exn].
  rewrite c_int_fits_rectangle by assumption. cbn [bind_exn].
  cbn [call_fits]. rewrite Hx0, Hc. cbn [andb]. eexists. reflexivity.
Qed.

End Drawing.

Section ProcessVideoCases.

Lemma sample_detection_fits src sink xmin ymin xmax ymax label score :
  c_int (py_int_Q xmin) = true -> c_int (py_int_Q xmin + 80) = true ->
  c_int (py_int_Q ymin - 21) = true -> c_int (py_int_Q ymin) = true ->
  c_int (py_int_Q xmax) = true -> c_int (py_int_Q ymax) = true ->
  detection_fits (sample_world src sink)
    ((F32 xmin, F32 ymin, F32 xmax, F32 ymax), label, score).
Proof.
  intros H1 H2 H3 H4 H5 H6. cbn [detection_fits box_of fst].
  repeat (split; [assumption|]). intros txt scale. cbn.
  unfold c_int in *.
  repeat match goal with
         | H : (_ && _)%bool = true |- _ => apply andb_prop in H as [? ?]
         end.
  repeat match goal with
         | H : (_ <=? _) = true |- _ => apply Z.leb_le in H
         | H : (_ <? _) = true |- _ => apply Z.ltb_lt in H
         end.
  repeat split; apply andb_true_intro; split;
    first [apply Z.leb_le | apply Z.ltb_lt]; lia.
Qed.

(** C1, at the frame of [busy_video]: of its detections with scores
    float32(0.95), float32(0.9) and 0.5 the threshold 0.9 lets the first
    one through. *)
Lemma process_video_renders_iff_above_threshold_witness :
  exists fr rendered,
    In (Write fr)
       (snd (process_video (sample_world (Some busy_video) true)
               "in.mp4" "out.mp4" (9 # 10)%Q))
    /\ In (box_of_Q 10 20 110 220, 1, f32_0_95) rendered
    /\ ~ In (box_of_Q 0 0 50 50, 3, f32_0_9) rendered
    /\ exists fr0,
         draw_boxes (sample_world (Some busy_video) true)
           (colors sample_bitgen sample_rng) 640 480
           {| pixels := 0; drawn := [] |} rendered = inr fr0.
Proof.
  set (w := sample_world (Some busy_video) true).
  assert (Hx : (10 <= 110)%Q) by discriminate.
  assert (Hy : (20 <= 220)%Q) by discriminate.
  assert (Hw : 0 < 640) by reflexivity.
  assert (Hh : 0 < 480) by reflexivity.
  assert (Hfit : detection_fits w (box_of_Q 10 20 110 220, 1, f32_0_95))
    by (apply (sample_detection_fits (Some busy_video) true
                 10 20 110 220 1 f32_0_95); reflexivity).
  destruct (draw_detection_defined w (colors sample_bitgen sample_rng)
              640 480 {| pixels := 0; drawn := [] |}
              10 20 110 220 1 f32_0_95 "person" eq_refl Hx Hy Hw Hh Hfit)
    as [fr1 Hfr1].
  assert (Hdd : detect_and_draw w (colors sample_bitgen sample_rng) (9 # 10)%Q
                  640 480 (busy_frame 0 0 (1 # 2)%Q) = inr fr1).
  { change (detect_and_draw w (colors sample_bitgen sample_rng) (9 # 10)%Q
              640 480 (busy_frame 0 0 (1 # 2)%Q))
      with (bind_exn
              (draw_detection w (colors sample_bitgen sample_rng) 640 480
                 {| pixels := 0; drawn := [] |}
                 (box_of_Q 10 20 110 220, 1, f32_0_95))
              (fun fr' => inr fr')).
    unfold box_of_Q, box in *. rewrite Hfr1. reflexivity. }
  assert (Hin : In (Write (add_fps_counter w fr1 2%Q 640))
                  (snd (process_video w "in.mp4" "out.mp4" (9 # 10)%Q))).
  { rewrite (process_video_opened w _ _ _ busy_video eq_refl).
    unfold main_loop.
    change (v_reads busy_video) with [RetFrame (busy_frame 0 0 (1 # 2)%Q)].
    rewrite frame_loop_cons_frame. cbv zeta. rewrite process_frame_eq.
    change (colors (bitgen w) (rng0 w)) with (colors sample_bitgen sample_rng).
    change (v_width busy_video) with 640.
    change (v_height busy_video) with 480.
    rewrite Hdd.
    change (py_div 1 (f_end (busy_frame 0 0 (1 # 2)%Q)
                      - f_start (busy_frame 0 0 (1 # 2)%Q))%Q)
      with (@inr exn Q 2%Q).
    cbn. tauto. }
  destruct (process_video_renders_iff_above_threshold w _ _ _ _ Hin)
    as (cap & fi & res & rendered & fr0 & fps' & Hcap & Hfi & Hres & _
        & Hdraw & _ & _ & Hiff & _).
  injection Hcap as <-.
  destruct Hfi as [Hfi|[]]. injection Hfi as <-.
  injection Hres as <-.
  exists (add_fps_counter w fr1 2%Q 640), rendered.
  split; [exact Hin|]. split; [|split].
  - apply Hiff; [left; reflexivity|vm_compute; reflexivity].
  - intros Hr. apply Hiff in Hr; [|right; left; reflexivity].
    vm_compute in Hr. discriminate.
  - exists fr0. exact Hdraw.
Defined.

(** C1 as stated fails: with the threshold 0.8 (a double slightly above
    0.8) a detection whose score is the float32 nearest to 0.8 has a
    score above the threshold, yet it is not drawn, since NumPy rounds
    the threshold to that same float32 before it compares.  The frame
    written holds the FPS read-out only. *)
Lemma process_video_threshold_rounding_drops_detection :
  let w := sample_world (Some edge_video) true in
  let run := process_video w "in.mp4" "out.mp4" double_0_8 in
  (double_0_8 < f32_0_8)%Q
  /\ f_detect (edge_frame 0 0 (1 # 2)%Q)
     = inr {| scores := [f32_0_8]; labels := [1];
              boxes := [box_of_Q 10 20 110 220] |}
  /\ to_float32 double_0_8 = F32 f32_0_8
  /\ fst run = inr tt
  /\ written (snd run)
     = [{| pixels := 0;
           drawn := [Rectangle (545, 5) (635, 31) (0, 0, 0) (-1);
                     PutText (FpsText 2%Q) (550, 26) (Fin (7 / 10)%R)
                       (255, 255, 255) 2] |}].
Proof. vm_compute. repeat split. Qed.

(** C2, at [broken_video]: the fifth read raises; four frames are
    written, the [finally] calls are made and the error reaches the
    caller. *)
Lemma process_video_finalize_always_witness :
  let run := process_video (sample_world (Some broken_video) true)
               "in.mp4" "out.mp4" default_threshold in
  fst run = inl (LibraryError "decode")
  /\ length (written (snd run)) = 4%nat
  /\ exists pre post,
       snd run
       = pre ++ [PbarClose; CapRelease; OutRelease; DestroyAllWindows;
                 EmptyCache; GcCollect; ModelTo Cpu] ++ post.
Proof.
  intros run.
  destruct (process_video_finalize_always
              (sample_world (Some broken_video) true) "in.mp4" "out.mp4"
              default_threshold broken_video eq_refl)
    as (Herr & _ & Hfin & Hw).
  split; [|split].
  - apply (Herr (LibraryError "decode")). vm_compute. reflexivity.
  - subst run. rewrite Hw. vm_compute. reflexivity.
  - exact Hfin.
Defined.

End ProcessVideoCases.

(** ** Timing, opening and reporting *)

Section Timing.

Lemma py_div_zero (a b : Q) : (b == 0)%Q -> py_div a b = inl ZeroDivisionError.
Proof.
  intros H. unfold py_div. apply Qeq_bool_iff in H. rewrite H. reflexivity.
Qed.

Lemma py_div_nonzero (a b : Q) : ~ (b == 0)%Q -> py_div a b = inr (a / b)%Q.
Proof.
  intros H. unfold py_div. destruct (Qeq_bool b 0) eqn:E; [|reflexivity].
  apply Qeq_bool_iff in E. contradiction.
Qed.

(** C3, as the code has it.  For a frame whose boxes were drawn, the FPS
    is 1 divided by the elapsed time whenever that time is not zero: it is
    added to [total_fps], shown on the frame, and the frame is written.
    Nothing guards the division: on an elapsed time of zero the iteration
    raises [ZeroDivisionError] and writes no frame. *)
Theorem process_frame_fps_unguarded
    (w : World) (palette : gmap Z color) (threshold : Q)
    (frame_width frame_height : Z) (fi : FrameIn) (l : Locals) (fr0 : Frame) :
  detect_and_draw w palette threshold frame_width frame_height fi = inr fr0 ->
  let elapsed := (f_end fi - f_start fi)%Q in
  let step := process_frame w palette threshold frame_width frame_height fi l in
  (~ (elapsed == 0)%Q ->
     fst step
     = inr {| frame_count := frame_count l + 1;
              total_fps := (total_fps l + 1 / elapsed)%Q;
              fps := (1 / elapsed)%Q;
              pbar_n := pbar_n l + 1 |}
     /\ written (snd step)
        = [add_fps_counter w fr0 (1 / elapsed)%Q frame_width])
  /\ ((elapsed == 0)%Q ->
        step = (inl ZeroDivisionError, [Detect (f_pixels fi)])).
Proof.
  intros Hd elapsed step. subst step. rewrite process_frame_eq, Hd.
  fold elapsed. split; intros He.
  - rewrite (py_div_nonzero _ _ He). cbn [fst snd].
    split; [reflexivity|]. destruct (_ =? _); reflexivity.
  - rewrite (py_div_zero _ _ He). reflexivity.
Qed.

Lemma process_frame_fps_unguarded_witness :
  process_frame (sample_world (Some instant_video) true)
    (colors sample_bitgen sample_rng) default_threshold 640 480
    (quiet_frame 0 (7 # 1) (7 # 1))%Q (initial_locals instant_video)
  = (inl ZeroDivisionError, [Detect 0%nat]).
Proof.
  refine (proj2 (process_frame_fps_unguarded
                   (sample_world (Some instant_video) true)
                   (colors sample_bitgen sample_rng) default_threshold 640 480
                   (quiet_frame 0 (7 # 1) (7 # 1))%Q
                   (initial_locals instant_video)
                   {| pixels := 0; drawn := [] |} _) _).
  - vm_compute. reflexivity.
  - vm_compute. reflexivity.
Defined.

(** C3 as stated fails: with two equal clock readings on the only frame,
    the division raises and [process_video] ends with that error. *)
Lemma process_video_zero_elapsed_is_fatal :
  process_video (sample_world (Some instant_video) true)
    "in.mp4" "out.mp4" default_threshold
  = (inl ZeroDivisionError,
     [Print (UsingDevice Cpu); ModelTo Cpu; CapOpen "in.mp4";
      WriterOpen "out.mp4" 30 640 480; PbarOpen 1; CapRead; Detect 0%nat;
      Print (ErrorOccurred ZeroDivisionError); PbarClose; CapRelease;
      OutRelease; DestroyAllWindows; EmptyCache; GcCollect; ModelTo Cpu]).
Proof. vm_compute. reflexivity. Qed.

End Timing.

Section Opening.

Lemma draw_boxes_with_sink w sink pal fw fh ds :
  forall fr,
    draw_boxes (with_sink w sink) pal fw fh fr ds
    = draw_boxes w pal fw fh fr ds.
Proof.
  induction ds as [|d ds IH]; intros fr; [reflexivity|].
  cbn [draw_boxes].
  change (draw_detection (with_sink w sink) pal fw fh fr d)
    with (draw_detection w pal fw fh fr d).
  destruct (draw_detection w pal fw fh fr d); [reflexivity|]. apply IH.
Qed.

Lemma detect_and_draw_with_sink w sink pal t fw fh fi :
  detect_and_draw (with_sink w sink) pal t fw fh fi
  = detect_and_draw w pal t fw fh fi.
Proof.
  unfold detect_and_draw.
  destruct (f_detect fi) as [e|res]; [reflexivity|]. cbn [bind_exn].
  destruct (mask_index (boxes res) _); [reflexivity|]. cbn [bind_exn].
  destruct (mask_index (labels res) _); [reflexivity|]. cbn [bind_exn].
  destruct (mask_index (scores res) _); [reflexivity|]. cbn [bind_exn].
  apply draw_boxes_with_sink.
Qed.

Lemma frame_loop_with_sink w sink pal t fw fh reads :
  forall l,
    frame_loop (with_sink w sink) pal t fw fh reads l
    = frame_loop w pal t fw fh reads l.
Proof.
  induction reads as [|r rest IH]; intros l; [reflexivity|].
  destruct r as [fi| |e]; try reflexivity.
  rewrite !frame_loop_cons_frame. cbv zeta.
  rewrite !process_frame_eq, detect_and_draw_with_sink.
  destruct (detect_and_draw w pal t fw fh fi) as [e|fr0]; [reflexivity|].
  destruct (py_div _ _) as [e|fps']; [reflexivity|].
  cbn [fst snd]. rewrite IH. reflexivity.
Qed.

(** C4, as the code has it.  A source that does not open makes
    [process_video] raise [ValueError] after three calls: no frame is
    read and no writer is created.  A source that opens and yields no
    frame is no error: one read, nothing written, the [finally] calls,
    normal return.  Whether the writer opened is never asked: the run is
    the same for either answer. *)
Theorem process_video_open_failure
    (w : World) (video_path output_path : string) (threshold : Q) :
  let run := process_video w video_path output_path threshold in
  (VideoCapture w video_path = None ->
     run = (inl (ValueError "Error opening video file"),
            [Print (UsingDevice (device_of w)); ModelTo (device_of w);
             CapOpen video_path])
     /\ reads_made (snd run) = 0%nat)
  /\ (forall cap, VideoCapture w video_path = Some cap -> v_reads cap = [] ->
        run = (inr tt,
               init_calls w video_path output_path cap ++ [CapRead]
               ++ finalize_calls ++ [Print Completed]))
  /\ (forall sink,
        process_video (with_sink w sink) video_path output_path threshold
        = run).
Proof.
  intros run. subst run. split; [|split].
  - intros H. rewrite (process_video_unopened _ _ _ _ H).
    split; reflexivity.
  - intros cap Hcap Hreads.
    rewrite (process_video_opened _ _ _ _ _ Hcap).
    unfold main_loop. rewrite Hreads. reflexivity.
  - intros sink.
    destruct (VideoCapture w video_path) as [cap|] eqn:Hcap.
    + rewrite (process_video_opened w _ _ _ _ Hcap).
      rewrite (process_video_opened (with_sink w sink) _ _ _ cap Hcap).
      unfold main_loop.
      change (bitgen (with_sink w sink)) with (bitgen w).
      change (rng0 (with_sink w sink)) with (rng0 w).
      rewrite frame_loop_with_sink. reflexivity.
    + rewrite (process_video_unopened w _ _ _ Hcap).
      rewrite (process_video_unopened (with_sink w sink) _ _ _ Hcap).
      reflexivity.
Qed.

Lemma process_video_open_failure_witness :
  process_video (sample_world None true) "missing.mp4" "out.mp4"
    default_threshold
  = (inl (ValueError "Error opening video file"),
     [Print (UsingDevice Cpu); ModelTo Cpu; CapOpen "missing.mp4"]).
Proof.
  exact (proj1 (proj1 (process_video_open_failure (sample_world None true)
                         "missing.mp4" "out.mp4" default_threshold)
                  eq_refl)).
Defined.

(** C4 as stated fails: a source that opens with zero frames raises
    nothing. *)
Lemma process_video_zero_frames_no_failure :
  VideoCapture (sample_world (Some empty_video) true) "in.mp4"
  = Some empty_video
  /\ v_frame_count empty_video = 0 /\ v_reads empty_video = []
  /\ process_video (sample_world (Some empty_video) true)
       "in.mp4" "out.mp4" default_threshold
     = (inr tt,
        [Print (UsingDevice Cpu); ModelTo Cpu; CapOpen "in.mp4";
         WriterOpen "out.mp4" 30 640 480; PbarOpen 0; CapRead; PbarClose;
         CapRelease; OutRelease; DestroyAllWindows; EmptyCache; GcCollect;
         ModelTo Cpu; Print Completed]).
Proof. repeat split. Qed.

(** A writer that did not open: the run succeeds and the file gets no
    frame. *)
Example process_video_unopened_sink :
  let w := sample_world (Some one_frame_video) false in
  let run := process_video w "in.mp4" "out.mp4" default_threshold in
  fst run = inr tt
  /\ length (written (snd run)) = 1%nat
  /\ sink_frames w "out.mp4" (snd run) = [].
Proof. vm_compute. repeat split. Qed.

End Opening.

Section Reporting.

(** C7 does not hold of the code.  A successful run prints the device
    line and the completion line, nothing else; the frame count the loop
    has accumulated, and [total_fps] with it, are dropped. *)
Theorem process_video_prints_no_summary
    (w : World) (video_path output_path : string) (threshold : Q) :
  let run := process_video w video_path output_path threshold in
  fst run = inr tt ->
  printed (snd run) = [UsingDevice (device_of w); Completed]
  /\ exists cap l,
       VideoCapture w video_path = Some cap
       /\ fst (main_loop w threshold cap) = inr l
       /\ frame_count l = Z.of_nat (length (written (snd run))).
Proof.
  intros run. subst run.
  destruct (VideoCapture w video_path) as [cap|] eqn:Hcap.
  - rewrite (process_video_opened _ _ _ _ _ Hcap).
    destruct (fst (main_loop w threshold cap)) as [e|l] eqn:E;
      [discriminate|].
    intros _. cbn [snd]. split.
    + rewrite !printed_app. unfold main_loop.
      rewrite frame_loop_printed. reflexivity.
    + exists cap, l. split; [reflexivity|]. split; [exact E|].
      unfold main_loop in E. apply frame_loop_counts in E.
      rewrite E. rewrite !written_app. fold (main_loop w threshold cap).
      change (written (init_calls w video_path output_path cap)) with (@nil Frame).
      change (written finalize_calls) with (@nil Frame).
      change (written [Print Completed]) with (@nil Frame).
      rewrite !app_nil_r. reflexivity.
  - rewrite (process_video_unopened _ _ _ _ Hcap). discriminate.
Qed.

Lemma process_video_prints_no_summary_witness :
  printed (snd (process_video (sample_world (Some one_frame_video) true)
                  "in.mp4" "out.mp4" default_threshold))
  = [UsingDevice Cpu; Completed].
Proof.
  apply (process_video_prints_no_summary
           (sample_world (Some one_frame_video) true)
           "in.mp4" "out.mp4" default_threshold).
  vm_compute. reflexivity.
Defined.

End Reporting.

(** * Further properties of the code *)

(** ** [calculate_label_size] on its whole domain *)

Section LabelSizeEdges.

Local Open Scope R_scope.

Lemma np_clip_cases (x : npfloat) (mn mx : R) :
  np_clip x (Fin mn) (Fin mx)
  = match x with
    | Fin r => Fin (Rmin mx (Rmax r mn))
    | PInf => Fin mx
    | NInf => Fin (Rmin mx mn)
    | NaN => NaN
    end.
Proof.
  destruct x as [r| | |]; try reflexivity.
  - apply np_clip_finite.
  - unfold np_clip. cbn. unfold Rmin. destruct (Rle_dec mx mn); reflexivity.
Qed.

(** With ordered finite scales the result is NaN or lies between them,
    whatever the four sizes are: zero, negative, infinite or NaN. *)
Theorem calculate_label_size_bounded
    (bw bh fw fh : npfloat) (mn mx : R) :
  mn <= mx ->
  let s := calculate_label_size bw bh fw fh (Fin mn) (Fin mx) in
  s = NaN \/ exists r, s = Fin r /\ mn <= r <= mx.
Proof.
  intros H s. subst s. unfold calculate_label_size.
  rewrite np_clip_cases.
  destruct (font_scale_unclipped _ _ _) as [r| | |].
  - right. eexists. split; [reflexivity|].
    unfold Rmin, Rmax. destruct (Rle_dec r mn), (Rle_dec mx _); lra.
  - right. exists mx. split; [reflexivity|lra].
  - right. eexists. split; [reflexivity|].
    unfold Rmin. destruct (Rle_dec mx mn); lra.
  - left. reflexivity.
Qed.

Lemma calculate_label_size_bounded_witness :
  let s := calculate_label_size (Fin 3) (Fin 4) (Fin 0) (Fin 0)
             (Fin (4 / 10)) (Fin (12 / 10)) in
  s = NaN \/ exists r, s = Fin r /\ 4 / 10 <= r <= 12 / 10.
Proof.
  apply (calculate_label_size_bounded (Fin 3) (Fin 4) (Fin 0) (Fin 0)
           (4 / 10) (12 / 10)).
  lra.
Defined.

(** Scales given in the wrong order: the answer is [max_scale] for every
    box, since [np.clip] applies the upper bound last. *)
Theorem calculate_label_size_misordered (bw bh fw fh mn mx : R) :
  0 <= bw -> 0 <= bh -> 0 < fw -> 0 < fh -> mx < mn ->
  calculate_label_size (Fin bw) (Fin bh) (Fin fw) (Fin fh) (Fin mn) (Fin mx)
  = Fin mx.
Proof.
  intros Hbw Hbh Hfw Hfh Hm.
  rewrite calculate_label_size_finite by assumption.
  f_equal. unfold Rmin, Rmax.
  destruct (Rle_dec _ mn); destruct (Rle_dec mx _); lra.
Qed.

Lemma calculate_label_size_misordered_witness :
  calculate_label_size (Fin 10) (Fin 10) (Fin 640) (Fin 480)
    (Fin (12 / 10)) (Fin (4 / 10))
  = Fin (4 / 10).
Proof.
  apply (calculate_label_size_misordered 10 10 640 480 (12 / 10) (4 / 10));
    lra.
Defined.

(** Where the clamp starts to act.  With [min_scale < max_scale] the
    result is [max_scale] exactly when the box covers at least
    (e^5 - 1) / 100 of the frame (about 1.47 frames); below that the
    logarithmic formula is returned unclipped.  The lower clamp never
    acts. *)
Theorem calculate_label_size_saturation (bw bh fw fh mn mx : R) :
  0 <= bw -> 0 <= bh -> 0 < fw -> 0 < fh -> mn < mx ->
  let ratio := bw * bh / (fw * fh) in
  let s := calculate_label_size (Fin bw) (Fin bh) (Fin fw) (Fin fh)
             (Fin mn) (Fin mx) in
  (s = Fin mx <-> exp 5 - 1 <= 100 * ratio)
  /\ (100 * ratio <= exp 5 - 1 ->
        s = Fin (mn + ln (1 + 100 * ratio) / 5 * (mx - mn))).
Proof.
  intros Hbw Hbh Hfw Hfh Hm ratio s. subst s.
  pose proof (ratio_nonneg bw bh fw fh Hbw Hbh Hfw Hfh) as Hr.
  fold ratio in Hr.
  rewrite calculate_label_size_finite by assumption. fold ratio.
  replace (1 + ratio * 100) with (1 + 100 * ratio) by ring.
  replace (mx + - mn) with (mx - mn) by ring.
  set (L := ln (1 + 100 * ratio)).
  assert (HL0 : 0 <= L).
  { unfold L. rewrite <- ln_1. apply ln_le_mono; lra. }
  assert (Hge : exp 5 - 1 <= 100 * ratio -> 5 <= L).
  { intros H. unfold L. rewrite <- (ln_exp 5).
    apply ln_le_mono; [apply exp_pos|lra]. }
  assert (Hlt : 100 * ratio < exp 5 - 1 -> L < 5).
  { intros H. unfold L. rewrite <- (ln_exp 5).
    apply ln_increasing; lra. }
  assert (Hle : 100 * ratio <= exp 5 - 1 -> L <= 5).
  { intros H. unfold L. rewrite <- (ln_exp 5).
    apply ln_le_mono; lra. }
  split; [split|].
  - intros [= H].
    destruct (Rle_dec (exp 5 - 1) (100 * ratio)) as [|Hn]; [assumption|].
    exfalso. apply Rnot_le_lt in Hn. apply Hlt in Hn.
    unfold Rmin, Rmax in H.
    destruct (Rle_dec _ mn), (Rle_dec mx _); nra.
  - intros H. apply Hge in H. f_equal.
    unfold Rmin, Rmax. destruct (Rle_dec _ mn), (Rle_dec mx _); nra.
  - intros H. apply Hle in H. f_equal.
    unfold Rmin, Rmax. destruct (Rle_dec _ mn), (Rle_dec mx _); nra.
Qed.

Lemma calculate_label_size_saturation_witness :
  calculate_label_size (Fin 0) (Fin 50) (Fin 640) (Fin 480)
    (Fin (4 / 10)) (Fin (12 / 10))
  = Fin (4 / 10 + ln (1 + 100 * (0 * 50 / (640 * 480))) / 5 * (12 / 10 - 4 / 10)).
Proof.
  apply (calculate_label_size_saturation 0 50 640 480 (4 / 10) (12 / 10));
    try lra.
  pose proof (exp_ineq1_le 5). lra.
Defined.

Lemma np_mul_PInf_pos x : 0 < x -> np_mul PInf (Fin x) = PInf.
Proof. intros H. cbn. rewrite (Rsign_pos _ H). reflexivity. Qed.

Lemma np_div_PInf_pos x : 0 < x -> np_div PInf (Fin x) = PInf.
Proof. intros H. cbn. destruct (Rlt_dec x 0); [lra|reflexivity]. Qed.

Lemma scale_of_zero_divisor (a d mn mx : R) :
  d = 0 -> mn < mx ->
  let s := np_clip (font_scale_unclipped (np_div (Fin a) (Fin d))
                      (Fin mn) (Fin mx)) (Fin mn) (Fin mx) in
  (0 < a -> s = Fin mx) /\ (a = 0 -> s = NaN).
Proof.
  intros Hd Hm s. subst s. cbn [np_div].
  destruct (Req_dec_T d 0) as [_|Hn]; [|contradiction].
  split; intros Ha.
  - rewrite (Rsign_pos _ Ha). cbn [inf_of_sign].
    unfold font_scale_unclipped.
    rewrite (np_mul_PInf_pos 100) by lra. cbn [np_add np_log].
    rewrite (np_div_PInf_pos 5) by lra.
    unfold np_sub. cbn [np_neg np_add].
    rewrite (np_mul_PInf_pos (mx + - mn)) by lra.
    cbn [np_add]. apply np_clip_cases.
  - rewrite Ha. unfold Rsign at 1.
    destruct (Rlt_dec 0 0); [lra|]. reflexivity.
Qed.

Lemma Q2R_inject_Z (z : Z) : Q2R (inject_Z z) = IZR z.
Proof. unfold Q2R. cbn. field. Qed.

(** The call [process_video] makes, NumPy box sizes and built-in frame
    sizes, is the NumPy computation and cannot raise. *)
Lemma calculate_label_size_call_np (a b : npfloat) (fw fh : Z)
    (mn mx : npfloat) :
  calculate_label_size_call (NpNum a) (NpNum b)
    (PyNum (inject_Z fw)) (PyNum (inject_Z fh)) mn mx
  = inr (calculate_label_size a b (Fin (IZR fw)) (Fin (IZR fh)) mn mx).
Proof.
  unfold calculate_label_size_call, calculate_label_size, box_size_ratio.
  cbn [py_mul py_truediv to_np np_mul].
  rewrite Q2R_mult, !Q2R_inject_Z. reflexivity.
Qed.

(** A frame of zero area.  Called with built-in Python numbers, line 76
    is a Python division and raises [ZeroDivisionError], whatever the
    box.  Called with NumPy box sizes, as [process_video] calls it, the
    division is NumPy's and nothing is raised: with
    [min_scale < max_scale] a box of positive area gets [max_scale] and a
    box of zero area gets NaN. *)
Theorem calculate_label_size_zero_frame (fw fh : Q) (mn mx : R) :
  (fw * fh == 0)%Q -> mn < mx ->
  (forall bw bh : Q,
     calculate_label_size_call (PyNum bw) (PyNum bh) (PyNum fw) (PyNum fh)
       (Fin mn) (Fin mx) = inl ZeroDivisionError)
  /\ (forall bw bh : R, 0 < bw * bh ->
        calculate_label_size_call (NpNum (Fin bw)) (NpNum (Fin bh))
          (PyNum fw) (PyNum fh) (Fin mn) (Fin mx) = inr (Fin mx))
  /\ (forall bw bh : R, bw * bh = 0 ->
        calculate_label_size_call (NpNum (Fin bw)) (NpNum (Fin bh))
          (PyNum fw) (PyNum fh) (Fin mn) (Fin mx) = inr NaN).
Proof.
  intros Hf Hm.
  assert (Hd : Q2R (fw * fh) = 0).
  { rewrite (Qeq_eqR _ _ Hf). unfold Q2R. cbn. lra. }
  split; [|split].
  - intros bw bh. unfold calculate_label_size_call.
    cbn [py_mul py_truediv].
    apply Qeq_bool_iff in Hf. rewrite Hf. reflexivity.
  - intros bw bh Ha. unfold calculate_label_size_call.
    cbn [py_mul py_truediv to_np np_mul]. f_equal.
    apply (scale_of_zero_divisor (bw * bh) _ mn mx Hd Hm). exact Ha.
  - intros bw bh Ha. unfold calculate_label_size_call.
    cbn [py_mul py_truediv to_np np_mul]. f_equal.
    apply (scale_of_zero_divisor (bw * bh) _ mn mx Hd Hm). exact Ha.
Qed.

Lemma calculate_label_size_zero_frame_witness :
  calculate_label_size_call (PyNum 0) (PyNum 7) (PyNum 0) (PyNum 480)
    (Fin (4 / 10)) (Fin (12 / 10)) = inl ZeroDivisionError.
Proof.
  apply (calculate_label_size_zero_frame 0 480 (4 / 10) (12 / 10)).
  - reflexivity.
  - lra.
Defined.

End LabelSizeEdges.

(** ** More on the palette *)

Section PaletteEdges.

Lemma palette_of_size (len : nat) :
  forall (a : nat) (acc : gmap Z color) (st : rng_state),
    (forall k, Z.of_nat a <= k -> acc !! k = None) ->
    size (fst (palette_of (map Z.of_nat (seq a len)) acc st))
    = (size acc + len)%nat.
Proof.
  induction len as [|len IH]; intros a acc st Hfree.
  - simpl. lia.
  - cbn [seq map palette_of]. rewrite randint3_0_255.
    rewrite IH.
    + rewrite map_size_insert_None by (apply Hfree; lia). lia.
    + intros k Hk. rewrite lookup_insert_ne by lia. apply Hfree. lia.
Qed.

(** The palette has one entry per class, even when draws coincide, and
    none at all for [num_classes <= 0]. *)
Theorem generate_color_palette_size (bg : bit_generator)
    (num_classes : Z) (st : rng_state) :
  size (fst (generate_color_palette bg num_classes st))
  = Z.to_nat num_classes
  /\ (num_classes <= 0 -> fst (generate_color_palette bg num_classes st) = ∅).
Proof.
  split.
  - unfold generate_color_palette, py_range.
    rewrite palette_of_size by (intros; apply lookup_empty).
    rewrite map_size_empty. reflexivity.
  - intros H. apply map_eq. intros k.
    rewrite generate_color_palette_lookup, lookup_empty.
    rewrite decide_False by lia. reflexivity.
Qed.

Lemma generate_color_palette_size_witness :
  fst (generate_color_palette sample_bitgen (-3) sample_rng) = ∅.
Proof.
  apply (generate_color_palette_size sample_bitgen (-3) sample_rng). lia.
Defined.

(** Whatever label the detector reports, the colour handed to OpenCV has
    its three channels in 0..255. *)
Theorem get_label_color_is_8bit (bg : bit_generator) (st : rng_state)
    (label : Z) :
  let '(r, g, b) := get_label_color (colors bg st) label in
  0 <= r <= 255 /\ 0 <= g <= 255 /\ 0 <= b <= 255.
Proof.
  unfold get_label_color, colors.
  rewrite generate_color_palette_lookup.
  case_decide; cbn [default].
  - unfold drawn_color.
    assert (Hb : forall z, 0 <= z mod 255 <= 255).
    { intros z. pose proof (Z.mod_pos_bound z 255). lia. }
    repeat split; apply Hb.
  - unfold default_color. lia.
Qed.

End PaletteEdges.

(** ** The confidence filter *)

Section ThresholdEdges.

(** What the loop selects at [t] is what lies above [t] rounded to
    float32. *)
Lemma selected_kept (t t32 : Q) (res : Results) :
  to_float32 t = F32 t32 -> selected t res = kept t32 res.
Proof. intros H. unfold selected, kept. rewrite H. reflexivity. Qed.

Lemma above_mono (t1 t2 : Q) (d : box * Z * Q) :
  (t1 <= t2)%Q -> above t2 d = true -> above t1 d = true.
Proof.
  unfold above. rewrite !Qgt_bool_spec. intros H1 H2.
  eapply Qle_lt_trans; eassumption.
Qed.

(** Raising the threshold only removes boxes: what is kept at the higher
    threshold is what the higher threshold keeps of the lower one's
    selection, in the same order. *)
Theorem kept_threshold_monotone (t1 t2 : Q) (res : Results) :
  (t1 <= t2)%Q ->
  kept t2 res = List.filter (above t2) (kept t1 res)
  /\ incl (kept t2 res) (kept t1 res)
  /\ (length (kept t2 res) <= length (kept t1 res))%nat.
Proof.
  intros H. unfold kept.
  set (ds := zip3 (boxes res) (labels res) (scores res)).
  assert (E : List.filter (above t2) ds
              = List.filter (above t2) (List.filter (above t1) ds)).
  { induction ds as [|d ds IH]; [reflexivity|]. simpl.
    destruct (above t2 d) eqn:E2.
    - rewrite (above_mono _ _ _ H E2). simpl. rewrite E2, IH. reflexivity.
    - destruct (above t1 d); simpl; [rewrite E2|]; exact IH. }
  split; [exact E|]. split.
  - intros d Hd. apply filter_In in Hd as [Hd Ha].
    apply filter_In. split; [assumption|]. eapply above_mono; eassumption.
  - rewrite E. apply List.filter_length_le.
Qed.

Lemma kept_threshold_monotone_witness :
  Nat.le
    (length (kept (9 # 10)%Q
               {| scores := [95 # 100; 9 # 10; 1 # 2]%Q;
                  labels := [1; 3; 1];
                  boxes := [box_of_Q 10 20 110 220; box_of_Q 0 0 50 50;
                            box_of_Q 5 5 6 6] |}))
    (length (kept (1 # 2)%Q
               {| scores := [95 # 100; 9 # 10; 1 # 2]%Q;
                  labels := [1; 3; 1];
                  boxes := [box_of_Q 10 20 110 220; box_of_Q 0 0 50 50;
                            box_of_Q 5 5 6 6] |})).
Proof.
  apply (kept_threshold_monotone (1 # 2)%Q (9 # 10)%Q). discriminate.
Defined.

End ThresholdEdges.

(** ** What is drawn *)

Section DrawingEdges.

Lemma add_fps_counter_eq (w : World) (frame : Frame) (fps : Q)
    (frame_width : Z) :
  let '((tw, th), bl) := getTextSize w (FpsText fps) (Fin (7 / 10)%R) 2 in
  add_fps_counter w frame fps frame_width
  = {| pixels := pixels frame;
       drawn :=
         drawn frame
         ++ [Rectangle (frame_width - tw - 15, 5)
               (frame_width - 5, th + bl + 15) (0, 0, 0) (-1);
             PutText (FpsText fps) (frame_width - tw - 10, th + bl + 10)
               (Fin (7 / 10)%R) (255, 255, 255) 2] |}.
Proof.
  unfold add_fps_counter.
  destruct (getTextSize _ _ _ _) as [[tw th] bl].
  unfold cv_draw. cbn [pixels drawn]. rewrite <- app_assoc. cbn [app].
  replace (frame_width - tw - 10 - 5) with (frame_width - tw - 15) by lia.
  replace (th + 10 + bl - th - bl - 5) with 5 by lia.
  replace (frame_width - tw - 10 + tw + 5) with (frame_width - 5) by lia.
  replace (th + 10 + bl + 5) with (th + bl + 15) by lia.
  replace (th + 10 + bl) with (th + bl + 10) by lia.
  reflexivity.
Qed.

Lemma Rtrunc_nonneg_bounds (r : R) (lo hi : Z) :
  (0 <= r)%R -> (IZR lo <= r)%R -> (r < IZR hi + 1)%R ->
  lo <= Rtrunc r <= hi.
Proof.
  intros H0 Hlo Hhi. unfold Rtrunc.
  destruct (Rlt_dec r 0); [lra|].
  destruct (base_Int_part r) as [H1 H2].
  split.
  - assert (H : (IZR lo < IZR (Int_part r) + 1)%R) by lra.
    rewrite <- plus_IZR in H. apply lt_IZR in H. lia.
  - assert (H : (IZR (Int_part r) < IZR hi + 1)%R) by lra.
    rewrite <- plus_IZR in H. apply lt_IZR in H. lia.
Qed.

Lemma default_font_scale_range xmin ymin xmax ymax fw fh :
  (xmin <= xmax)%Q -> (ymin <= ymax)%Q -> 0 < fw -> 0 < fh ->
  exists s : R,
    calculate_label_size (Fin (Q2R (xmax - xmin))) (Fin (Q2R (ymax - ymin)))
      (Fin (IZR fw)) (Fin (IZR fh)) default_min_scale default_max_scale
    = Fin s
    /\ (4 / 10 <= s <= 12 / 10)%R.
Proof.
  intros Hx Hy Hfw Hfh. unfold default_min_scale, default_max_scale.
  eexists. split.
  - apply calculate_label_size_refines;
      try (apply Q2R_diff_nonneg; assumption);
      try (apply IZR_lt; assumption); lra.
  - apply label_scale_in_range. lra.
Qed.

(** One detection with an ordered box on a frame of positive size adds
    three calls in the class colour: the box outline with a stroke of 2
    or 3 pixels, the filled label background, and the label text in
    black with a stroke of 1.  Earlier drawing is kept. *)
Theorem draw_detection_calls
    (w : World) (palette : gmap Z color) (fw fh : Z) (fr fr' : Frame)
    (xmin ymin xmax ymax : Q) (label : Z) (score : Q) :
  (xmin <= xmax)%Q -> (ymin <= ymax)%Q -> 0 < fw -> 0 < fh ->
  draw_detection w palette fw fh fr
    ((F32 xmin, F32 ymin, F32 xmax, F32 ymax), label, score)
  = inr fr' ->
  exists name p1 p2 q1 q2 org fs stroke,
    id2label w !! label = Some name
    /\ pixels fr' = pixels fr
    /\ drawn fr'
       = drawn fr
         ++ [Rectangle p1 p2 (get_label_color palette label) stroke;
             Rectangle q1 q2 (get_label_color palette label) (-1);
             PutText (LabelText name score) org fs (0, 0, 0) 1]
    /\ 2 <= stroke <= 3
    /\ p1 = (py_int_Q xmin, py_int_Q ymin)
    /\ p2 = (py_int_Q xmax, py_int_Q ymax)
    /\ snd q2 = snd p1 /\ fst q1 = fst p1.
Proof.
  intros Hx Hy Hfw Hfh H.
  apply draw_detection_inr in H
    as (name & x0 & y0 & x1 & y1 & t3 & t15 & tw & th & bl & H).
  cbv zeta in H.
  destruct H as (Hname & _ & Hx0 & Hy0 & Hx1 & Hy1 & H3 & H15 & _ & _ & _ & ->).
  cbn [np32_sub np32_to_np py_int32] in *.
  destruct (default_font_scale_range xmin ymin xmax ymax fw fh Hx Hy Hfw Hfh)
    as (s & Hfs & Hs).
  rewrite Hfs in H3, H15. cbn [np_mul py_int] in H3, H15.
  injection H3 as <-. injection H15 as <-.
  injection Hx0 as <-. injection Hy0 as <-.
  injection Hx1 as <-. injection Hy1 as <-.
  assert (H3 : 1 <= Rtrunc (s * 3) <= 3)
    by (apply Rtrunc_nonneg_bounds; simpl; lra).
  assert (H15 : 0 <= Rtrunc (s * (15 / 10)) <= 1)
    by (apply Rtrunc_nonneg_bounds; simpl; lra).
  eexists name, _, _, _, _, _, _, (Z.max 2 (Rtrunc (s * 3))).
  split; [exact Hname|]. split; [reflexivity|]. split.
  - unfold cv_draw. cbn [pixels drawn]. rewrite <- !app_assoc. cbn [app].
    replace (Z.max 1 (Rtrunc (s * (15 / 10)))) with 1 by lia.
    reflexivity.
  - repeat split; try reflexivity; lia.
Qed.

Lemma draw_detection_calls_witness :
  exists fr' stroke,
    draw_detection (sample_world (Some busy_video) true)
      (colors sample_bitgen sample_rng) 640 480 {| pixels := 0; drawn := [] |}
      ((F32 10, F32 20, F32 110, F32 220)%Q, 1, (95 # 100)%Q) = inr fr'
    /\ 2 <= stroke <= 3.
Proof.
  assert (Hx : (10 <= 110)%Q) by discriminate.
  assert (Hy : (20 <= 220)%Q) by discriminate.
  assert (Hw : 0 < 640) by reflexivity.
  assert (Hh : 0 < 480) by reflexivity.
  destruct (draw_detection_defined (sample_world (Some busy_video) true)
              (colors sample_bitgen sample_rng) 640 480
              {| pixels := 0; drawn := [] |}
              10 20 110 220 1 (95 # 100)%Q "person" eq_refl Hx Hy Hw Hh)
    as [fr' Hfr'].
  { apply (sample_detection_fits (Some busy_video) true
             10 20 110 220 1 (95 # 100)%Q); reflexivity. }
  destruct (draw_detection_calls _ _ _ _ _ _ _ _ _ _ _ _ Hx Hy Hw Hh Hfr')
    as (name & p1 & p2 & q1 & q2 & org & fs & stroke & _ & _ & _ & Hs & _).
  exists fr', stroke. split; [exact Hfr'|exact Hs].
Defined.

Lemma draw_detection_count w pal fw fh fr d fr' :
  draw_detection w pal fw fh fr d = inr fr' ->
  exists c1 c2 c3, drawn fr' = drawn fr ++ [c1; c2; c3].
Proof.
  destruct d as [[[[[xmin ymin] xmax] ymax] l] s]. intros H.
  apply draw_detection_inr in H
    as (name & x0 & y0 & x1 & y1 & t3 & t15 & tw & th & bl & H).
  cbv zeta in H. destruct H as (_ & _ & _ & _ & _ & _ & _ & _ & _ & _ & _ & ->).
  unfold cv_draw. cbn [drawn].
  rewrite <- !app_assoc. eexists _, _, _. reflexivity.
Qed.

Lemma draw_boxes_count w pal fw fh ds :
  forall fr fr',
    draw_boxes w pal fw fh fr ds = inr fr' ->
    exists calls,
      drawn fr' = drawn fr ++ calls /\ length calls = (3 * length ds)%nat.
Proof.
  induction ds as [|d ds IH]; intros fr fr'; cbn [draw_boxes].
  - intros [= <-]. exists []. rewrite app_nil_r. split; reflexivity.
  - destruct (draw_detection w pal fw fh fr d) as [e|fr1] eqn:E;
      [discriminate|]. cbn [bind_exn]. intros H.
    apply draw_detection_count in E as (c1 & c2 & c3 & E).
    apply IH in H as (calls & H & Hlen).
    exists ([c1; c2; c3] ++ calls). split.
    + rewrite H, E, <- app_assoc. reflexivity.
    + rewrite length_app, Hlen. simpl. lia.
Qed.

(** A written frame holds three calls per detection that passed
    [scores > threshold], followed by the two calls of the FPS read-out
    for the FPS of that frame: the black box and the white text, drawn
    last and so over any label they overlap.  A frame on which no
    detection passed holds these two calls alone. *)
Theorem written_frame_call_count
    (w : World) (video_path output_path : string) (threshold : Q)
    (fr : Frame) :
  In (Write fr) (snd (process_video w video_path output_path threshold)) ->
  exists (cap : Video) (fi : FrameIn) (res : Results)
         (calls : list cv_call) (fps' : Q) (tw th bl : Z),
    let readout :=
      [Rectangle (v_width cap - tw - 15, 5)
         (v_width cap - 5, th + bl + 15) (0, 0, 0) (-1);
       PutText (FpsText fps') (v_width cap - tw - 10, th + bl + 10)
         (Fin (7 / 10)%R) (255, 255, 255) 2] in
    VideoCapture w video_path = Some cap
    /\ In (RetFrame fi) (v_reads cap)
    /\ f_detect fi = inr res
    /\ py_div 1 (f_end fi - f_start fi)%Q = inr fps'
    /\ getTextSize w (FpsText fps') (Fin (7 / 10)%R) 2 = ((tw, th), bl)
    /\ drawn fr = calls ++ readout
    /\ length calls = (3 * length (selected threshold res))%nat
    /\ (selected threshold res = [] -> drawn fr = readout).
Proof.
  intros H.
  apply process_video_written_inv in H as (cap & Hcap & H).
  unfold main_loop in H.
  apply frame_loop_written_inv in H as (fi & fr0 & fps' & Hin & Hd & Hf & ->).
  apply detect_and_draw_inr in Hd as (res & Hres & Hb & Hl & Hdraw).
  apply draw_boxes_count in Hdraw as (calls & Hcalls & Hlen).
  cbn [drawn app] in Hcalls.
  pose proof (add_fps_counter_eq w fr0 fps' (v_width cap)) as Hg.
  destruct (getTextSize _ _ _ _) as [[tw th] bl] eqn:Ets. rewrite Hg.
  cbn [drawn]. rewrite Hcalls.
  exists cap, fi, res, calls, fps', tw, th, bl. cbv zeta.
  split; [exact Hcap|]. split; [exact Hin|]. split; [exact Hres|].
  split; [exact Hf|]. split; [exact Ets|].
  split; [reflexivity|]. split; [exact Hlen|].
  intros Hk. unfold selected in Hk. rewrite Hk in Hlen.
  destruct calls; [reflexivity|discriminate].
Qed.

Lemma written_frame_call_count_witness :
  drawn (add_fps_counter (sample_world (Some one_frame_video) true)
           {| pixels := 0; drawn := [] |} 2%Q 640)
  = [Rectangle (545, 5) (635, 31) (0, 0, 0) (-1);
     PutText (FpsText 2%Q) (550, 26) (Fin (7 / 10)%R) (255, 255, 255) 2].
Proof.
  assert (Hin : In (Write (add_fps_counter
                             (sample_world (Some one_frame_video) true)
                             {| pixels := 0; drawn := [] |} 2%Q 640))
                  (snd (process_video (sample_world (Some one_frame_video) true)
                          "in.mp4" "out.mp4" default_threshold))).
  { vm_compute. tauto. }
  destruct (written_frame_call_count _ _ _ _ _ Hin)
    as (cap & fi & res & calls & fps' & tw & th & bl & H).
  cbv zeta in H.
  destruct H as (Hcap & Hfi & Hres & Hfps & Hts & _ & _ & Hnone).
  injection Hcap as <-.
  destruct Hfi as [Hfi|[]]. injection Hfi as <-.
  injection Hres as <-.
  vm_compute in Hfps. injection Hfps as <-.
  vm_compute in Hts. injection Hts as <- <- <-.
  apply Hnone. vm_compute. reflexivity.
Defined.

End DrawingEdges.

(** ** The loop as a whole *)

Section LoopEdges.

Variable w : World.
Variable palette : gmap Z color.
Variable threshold : Q.
Variables frame_width frame_height : Z.

Local Abbreviation loop :=
  (frame_loop w palette threshold frame_width frame_height).
Local Abbreviation step :=
  (process_frame w palette threshold frame_width frame_height).
Local Abbreviation detect :=
  (detect_and_draw w palette threshold frame_width frame_height).

Lemma add_fps_counter_pixels fr fps' fw :
  pixels (add_fps_counter w fr fps' fw) = pixels fr.
Proof.
  unfold add_fps_counter. destruct (getTextSize _ _ _ _) as [[tw th] bl].
  reflexivity.
Qed.

Lemma detect_and_draw_pixels fi fr0 :
  detect fi = inr fr0 -> pixels fr0 = f_pixels fi.
Proof.
  intros H. apply detect_and_draw_inr in H as (res & _ & _ & _ & H).
  apply draw_boxes_pixels in H. exact H.
Qed.




Lemma frame_loop_failed_read pre rest :
  forall l, loop (pre ++ RetFalse :: rest) l = loop pre l.
Proof.
  induction pre as [|r pre IH]; intros l; [reflexivity|].
  destruct r as [fi| |e]; try reflexivity.
  cbn [app]. rewrite !frame_loop_cons_frame. cbv zeta.
  destruct (fst (step fi l)); [reflexivity|]. rewrite IH. reflexivity.
Qed.

Lemma frame_loop_prefix reads :
  forall l,
    map pixels (written (snd (loop reads l)))
    `prefix_of` map f_pixels (leading_frames reads).
Proof.
  induction reads as [|r rest IH]; intros l.
  - apply prefix_nil.
  - destruct r as [fi| |e]; try apply prefix_nil.
    rewrite frame_loop_cons_frame. cbv zeta. rewrite process_frame_eq.
    destruct (detect fi) as [e|fr0] eqn:Ed; [apply prefix_nil|].
    destruct (py_div _ _) as [e|fps']; [apply prefix_nil|].
    cbn [fst snd leading_frames map].
    change (CapRead :: ?a ++ ?b) with ((CapRead :: a) ++ b).
    rewrite written_app, map_app.
    replace (map pixels (written (CapRead :: _ :: _ :: _ :: _)))
      with [f_pixels fi].
    + apply prefix_cons. apply IH.
    + destruct (_ =? _); cbn; rewrite add_fps_counter_pixels;
        rewrite (detect_and_draw_pixels _ _ Ed); reflexivity.
Qed.

Lemma frame_loop_success reads :
  forall l l',
    fst (loop reads l) = inr l' ->
    map pixels (written (snd (loop reads l)))
    = map f_pixels (leading_frames reads)
    /\ frame_count l'
       = frame_count l + Z.of_nat (length (leading_frames reads))
    /\ pbar_n l' = pbar_n l + Z.of_nat (length (leading_frames reads))
    /\ total_fps l' = sum_fps (leading_frames reads) (total_fps l).
Proof.
  induction reads as [|r rest IH]; intros l l'.
  - cbn. intros [= <-]. repeat split; lia.
  - destruct r as [fi| |e]; try (cbn; intros [= <-]; repeat split; lia);
      try (cbn; discriminate).
    rewrite frame_loop_cons_frame. cbv zeta. rewrite process_frame_eq.
    destruct (detect fi) as [e|fr0] eqn:Ed; [discriminate|].
    destruct (py_div _ _) as [e|fps'] eqn:Ef; [discriminate|].
    cbn [fst snd leading_frames map length]. intros H.
    apply IH in H as (Hpx & Hfc & Hpb & Htf). cbn in Hfc, Hpb, Htf.
    split; [|split; [|split]]; try lia.
    + change (CapRead :: ?a ++ ?b) with ((CapRead :: a) ++ b).
      rewrite written_app, map_app, Hpx.
      destruct (_ =? _); cbn; rewrite add_fps_counter_pixels;
        rewrite (detect_and_draw_pixels _ _ Ed); reflexivity.
    + rewrite Htf. unfold sum_fps. cbn [fold_left].
      unfold py_div in Ef. destruct (Qeq_bool _ _); [discriminate|].
      injection Ef as <-. reflexivity.
Qed.


Lemma cache_step (n : Z) :
  0 <= n ->
  (n + 1) / 100 - n / 100 = if (n + 1) mod 100 =? 0 then 1 else 0.
Proof.
  intros H. destruct ((n + 1) mod 100 =? 0) eqn:E.
  - apply Z.eqb_eq in E. Z.div_mod_to_equations. lia.
  - apply Z.eqb_neq in E. Z.div_mod_to_equations. lia.
Qed.

Lemma frame_loop_cache reads :
  forall l,
    0 <= pbar_n l ->
    let tr := snd (loop reads l) in
    Z.of_nat (length (List.filter is_empty_cache tr))
    = (pbar_n l + Z.of_nat (length (written tr))) / 100 - pbar_n l / 100
    /\ length (List.filter is_gc_collect tr)
       = length (List.filter is_empty_cache tr)
    /\ length (List.filter is_pbar_update tr) = length (written tr).
Proof.
  induction reads as [|r rest IH]; intros l Hn; cbv zeta.
  - cbn. rewrite Z.add_0_r. repeat split; lia.
  - destruct r as [fi| |e];
      try (cbn; rewrite Z.add_0_r; repeat split; lia).
    rewrite frame_loop_cons_frame. cbv zeta. rewrite process_frame_eq.
    destruct (detect fi) as [e|fr0];
      [cbn; rewrite Z.add_0_r; repeat split; lia|].
    destruct (py_div _ _) as [e|fps'];
      [cbn; rewrite Z.add_0_r; repeat split; lia|].
    cbn [fst snd].
    match goal with
    | |- context [loop rest ?l1] =>
        specialize (IH l1); set (tr1 := snd (loop rest l1)) in *
    end.
    destruct IH as (Hc & Hg & Hp); [cbn; lia|]. cbn [pbar_n] in Hc.
    change (CapRead :: ?a ++ tr1) with ((CapRead :: a) ++ tr1).
    rewrite written_app, !List.filter_app, !length_app, Hg, Hp.
    rewrite !Nat2Z.inj_add, Hc.
    pose proof (cache_step (pbar_n l) Hn) as Hs.
    set (W := length (written tr1)) in *.
    set (E := length (List.filter is_empty_cache tr1)) in *.
    clearbody W E tr1.
    destruct ((pbar_n l + 1) mod 100 =? 0); cbn;
      (split; [|split; reflexivity]);
      replace (pbar_n l + (Z.of_nat 1 + Z.of_nat W))
        with (pbar_n l + 1 + Z.of_nat W) by lia;
      lia.
Qed.

End LoopEdges.

Section WorldAgreement.

Variables w1 w2 : World.
Hypothesis same_names : id2label w1 = id2label w2.
Hypothesis same_metrics : getTextSize w1 = getTextSize w2.

Lemma draw_detection_agree pal fw fh fr d :
  draw_detection w1 pal fw fh fr d = draw_detection w2 pal fw fh fr d.
Proof. unfold draw_detection. rewrite same_names, same_metrics. reflexivity. Qed.

Lemma draw_boxes_agree pal fw fh ds :
  forall fr,
    draw_boxes w1 pal fw fh fr ds = draw_boxes w2 pal fw fh fr ds.
Proof.
  induction ds as [|d ds IH]; intros fr; [reflexivity|].
  cbn [draw_boxes]. rewrite draw_detection_agree.
  destruct (draw_detection w2 pal fw fh fr d); [reflexivity|]. apply IH.
Qed.

Lemma detect_and_draw_agree pal t fw fh fi :
  detect_and_draw w1 pal t fw fh fi = detect_and_draw w2 pal t fw fh fi.
Proof.
  unfold detect_and_draw.
  destruct (f_detect fi) as [e|res]; [reflexivity|]. cbn [bind_exn].
  destruct (mask_index (boxes res) _); [reflexivity|]. cbn [bind_exn].
  destruct (mask_index (labels res) _); [reflexivity|]. cbn [bind_exn].
  destruct (mask_index (scores res) _); [reflexivity|]. cbn [bind_exn].
  apply draw_boxes_agree.
Qed.

Lemma frame_loop_agree pal t fw fh reads :
  forall l,
    frame_loop w1 pal t fw fh reads l = frame_loop w2 pal t fw fh reads l.
Proof.
  induction reads as [|r rest IH]; intros l; [reflexivity|].
  destruct r as [fi| |e]; try reflexivity.
  rewrite !frame_loop_cons_frame. cbv zeta.
  rewrite !process_frame_eq, detect_and_draw_agree.
  unfold add_fps_counter. rewrite same_metrics.
  destruct (detect_and_draw w2 pal t fw fh fi) as [e|fr0]; [reflexivity|].
  destruct (py_div _ _) as [e|fps']; [reflexivity|].
  cbn [fst snd]. rewrite IH. reflexivity.
Qed.

End WorldAgreement.

(** ** [process_video] as a whole *)

Section ProcessVideoEdges.

Lemma process_video_written w vp op t cap :
  VideoCapture w vp = Some cap ->
  written (snd (process_video w vp op t)) = written (snd (main_loop w t cap)).
Proof.
  intros H. rewrite (process_video_opened _ _ _ _ _ H).
  destruct (fst (main_loop w t cap)); cbn [snd];
    rewrite !written_app;
    change (written (init_calls w vp op cap)) with (@nil Frame);
    cbn; rewrite app_nil_r; reflexivity.
Qed.

(** No frame is dropped, repeated or reordered: the pictures written are
    always an initial part of the pictures read, in order, and all of
    them when the run succeeds. *)
Theorem process_video_keeps_frame_order
    (w : World) (video_path output_path : string) (threshold : Q)
    (cap : Video) :
  VideoCapture w video_path = Some cap ->
  let run := process_video w video_path output_path threshold in
  map pixels (written (snd run))
  `prefix_of` map f_pixels (leading_frames (v_reads cap))
  /\ (fst run = inr tt ->
        map pixels (written (snd run))
        = map f_pixels (leading_frames (v_reads cap))).
Proof.
  intros Hcap run. subst run.
  rewrite (process_video_written _ _ _ _ _ Hcap).
  split; [apply frame_loop_prefix|].
  rewrite (process_video_opened _ _ _ _ _ Hcap).
  destruct (fst (main_loop w threshold cap)) as [e|l] eqn:E; [discriminate|].
  intros _. unfold main_loop in *.
  apply frame_loop_success in E as [E _]. exact E.
Qed.

Lemma process_video_keeps_frame_order_witness :
  map pixels
    (written (snd (process_video (sample_world (Some broken_video) true)
                     "in.mp4" "out.mp4" default_threshold)))
  `prefix_of` map f_pixels (leading_frames (v_reads broken_video)).
Proof.
  exact (proj1 (process_video_keeps_frame_order
                  (sample_world (Some broken_video) true)
                  "in.mp4" "out.mp4" default_threshold broken_video eq_refl)).
Defined.




(** A read that fails with [ret = False] is taken for the end of the
    stream: the frames after it are never read, nothing is raised, and
    the run is the one of the source cut before that read. *)
Theorem process_video_failed_read_is_eof
    (w : World) (video_path output_path : string) (threshold : Q)
    (cap : Video) (pre rest : list ReadResult) :
  v_reads cap = pre ++ RetFalse :: rest ->
  process_video (with_source w (fun _ => Some cap))
    video_path output_path threshold
  = process_video (with_source w (fun _ => Some (with_reads cap pre)))
      video_path output_path threshold.
Proof.
  intros Hreads.
  rewrite (process_video_opened (with_source w (fun _ => Some cap))
             _ _ _ cap eq_refl).
  rewrite (process_video_opened
             (with_source w (fun _ => Some (with_reads cap pre)))
             _ _ _ (with_reads cap pre) eq_refl).
  assert (E : main_loop (with_source w (fun _ => Some cap)) threshold cap
              = main_loop (with_source w (fun _ => Some (with_reads cap pre)))
                  threshold (with_reads cap pre)).
  { unfold main_loop. rewrite Hreads. cbn [v_reads with_reads v_width v_height].
    rewrite frame_loop_failed_read.
    apply frame_loop_agree; reflexivity. }
  rewrite E. reflexivity.
Qed.

Lemma process_video_failed_read_is_eof_witness :
  process_video
    (with_source (sample_world None true)
       (fun _ => Some (video_of [RetFrame (quiet_frame 0 0 (1 # 2)%Q);
                                 RetFalse;
                                 RetFrame (quiet_frame 2 2 (5 # 2)%Q)])))
    "in.mp4" "out.mp4" default_threshold
  = process_video
      (with_source (sample_world None true)
         (fun _ => Some (with_reads
                           (video_of [RetFrame (quiet_frame 0 0 (1 # 2)%Q);
                                      RetFalse;
                                      RetFrame (quiet_frame 2 2 (5 # 2)%Q)])
                           [RetFrame (quiet_frame 0 0 (1 # 2)%Q)])))
      "in.mp4" "out.mp4" default_threshold.
Proof.
  apply (process_video_failed_read_is_eof (sample_world None true)
           "in.mp4" "out.mp4" default_threshold
           (video_of [RetFrame (quiet_frame 0 0 (1 # 2)%Q); RetFalse;
                      RetFrame (quiet_frame 2 2 (5 # 2)%Q)])
           [RetFrame (quiet_frame 0 0 (1 # 2)%Q)]
           [RetFrame (quiet_frame 2 2 (5 # 2)%Q)]).
  reflexivity.
Defined.

(** The cache is emptied and the collector run once for every hundredth
    frame written, and once more in the [finally] block; the progress bar
    advances once per frame written. *)
Theorem process_video_reclaims_every_100
    (w : World) (video_path output_path : string) (threshold : Q)
    (cap : Video) :
  VideoCapture w video_path = Some cap ->
  let tr := snd (process_video w video_path output_path threshold) in
  Z.of_nat (length (List.filter is_empty_cache tr))
  = Z.of_nat (length (written tr)) / 100 + 1
  /\ length (List.filter is_gc_collect tr)
     = length (List.filter is_empty_cache tr)
  /\ length (List.filter is_pbar_update tr) = length (written tr).
Proof.
  intros Hcap tr. subst tr.
  rewrite (process_video_written _ _ _ _ _ Hcap).
  rewrite (process_video_opened _ _ _ _ _ Hcap).
  destruct (frame_loop_cache w (colors (bitgen w) (rng0 w)) threshold
              (v_width cap) (v_height cap) (v_reads cap)
              (initial_locals cap)) as (Hc & Hg & Hp); [cbn; lia|].
  cbv zeta in Hc, Hg, Hp. fold (main_loop w threshold cap) in Hc, Hg, Hp.
  cbn [pbar_n initial_locals] in Hc.
  rewrite Z.add_0_l, Zdiv_0_l, Z.sub_0_r in Hc.
  destruct (fst (main_loop w threshold cap)); cbn [snd];
    rewrite !List.filter_app, !length_app, Hg, Hp, !Nat2Z.inj_add, Hc;
    cbn; repeat split; lia.
Qed.

Lemma process_video_reclaims_every_100_witness :
  Z.of_nat (length (List.filter is_empty_cache
              (snd (process_video (sample_world (Some one_frame_video) true)
                      "in.mp4" "out.mp4" default_threshold))))
  = Z.of_nat (length (written
                (snd (process_video (sample_world (Some one_frame_video) true)
                        "in.mp4" "out.mp4" default_threshold)))) / 100 + 1.
Proof.
  exact (proj1 (process_video_reclaims_every_100
                  (sample_world (Some one_frame_video) true)
                  "in.mp4" "out.mp4" default_threshold one_frame_video
                  eq_refl)).
Defined.

End ProcessVideoEdges.

Section FrameEdges.



(** When the loop ends normally its counters hold the statistics of the
    run: [frame_count] and the progress bar both count the frames read,
    and [total_fps] is the sum of the reciprocals of the frames' elapsed
    times. *)
Theorem main_loop_statistics (w : World) (threshold : Q) (cap : Video)
    (l : Locals) :
  fst (main_loop w threshold cap) = inr l ->
  frame_count l = Z.of_nat (length (leading_frames (v_reads cap)))
  /\ pbar_n l = frame_count l
  /\ total_fps l = sum_fps (leading_frames (v_reads cap)) 0.
Proof.
  intros H. unfold main_loop in H.
  apply frame_loop_success in H as (_ & Hfc & Hpb & Htf).
  cbn in Hfc, Hpb, Htf. repeat split; try lia. exact Htf.
Qed.

Lemma main_loop_statistics_witness :
  total_fps {| frame_count := 1; total_fps := 2; fps := 2; pbar_n := 1 |}
  = sum_fps (leading_frames (v_reads one_frame_video)) 0.
Proof.
  apply (main_loop_statistics (sample_world (Some one_frame_video) true)
           default_threshold one_frame_video
           {| frame_count := 1; total_fps := 2; fps := 2; pbar_n := 1 |}).
  vm_compute. reflexivity.
Defined.

End FrameEdges.

(** ** [display_mp4] *)

Section DisplayEdges.

Import Display.

Lemma quit_key_low_byte (k : Z) : quit_key k = true <-> k mod 256 = 113.
Proof.
  unfold quit_key, ord_q. rewrite Z.eqb_eq.
  change 255 with (Z.ones 8). rewrite Z.land_ones by lia.
  change (2 ^ 8) with 256. reflexivity.
Qed.

Lemma display_loop_prefix reads :
  forall keys,
    shown (snd (display_loop reads keys))
    `prefix_of` map f_pixels (leading_frames reads).
Proof.
  induction reads as [|r rest IH]; intros keys.
  - apply prefix_nil.
  - destruct r as [fi| |e]; try apply prefix_nil.
    cbn [display_loop leading_frames map].
    destruct (quit_key _).
    + cbn. apply prefix_cons. apply prefix_nil.
    + specialize (IH (tl keys)).
      destruct (display_loop rest (tl keys)) as [r t]. cbn.
      apply prefix_cons. exact IH.
Qed.

Lemma display_loop_returns reads :
  no_read_raises reads ->
  forall keys, fst (display_loop reads keys) = inr tt.
Proof.
  induction reads as [|r rest IH]; intros Hnr keys; [reflexivity|].
  destruct r as [fi| |e]; try reflexivity.
  - cbn [display_loop]. destruct (quit_key _); [reflexivity|].
    assert (Hr : no_read_raises rest)
      by (intros e He; apply (Hnr e); right; exact He).
    specialize (IH Hr (tl keys)).
    destruct (display_loop rest (tl keys)) as [r t]. exact IH.
  - exfalso. apply (Hnr e). left. reflexivity.
Qed.

Lemma display_loop_no_quit reads :
  forall keys,
    (forall k, In k keys -> quit_key k = false) ->
    shown (snd (display_loop reads keys))
    = map f_pixels (leading_frames reads).
Proof.
  induction reads as [|r rest IH]; intros keys Hk; [reflexivity|].
  destruct r as [fi| |e]; try reflexivity.
  cbn [display_loop leading_frames map].
  assert (Hh : quit_key (hd (-1) keys) = false).
  { destruct keys as [|k keys]; [reflexivity|]. apply Hk. left. reflexivity. }
  rewrite Hh.
  assert (Ht : forall k, In k (tl keys) -> quit_key k = false).
  { intros k Hin. apply Hk. destruct keys; [destruct Hin|right; exact Hin]. }
  specialize (IH (tl keys) Ht).
  destruct (display_loop rest (tl keys)) as [r t]. cbn. f_equal. exact IH.
Qed.

Lemma display_loop_quit_at (i : nat) :
  forall reads keys k,
    keys !! i = Some k -> quit_key k = true ->
    (forall j k', (j < i)%nat -> keys !! j = Some k' -> quit_key k' = false) ->
    (i < length (leading_frames reads))%nat ->
    shown (snd (display_loop reads keys))
    = map f_pixels (take (S i) (leading_frames reads)).
Proof.
  induction i as [|i IH]; intros reads keys k Hi Hq Hbefore Hlen.
  - destruct keys as [|k0 keys]; [discriminate|]. injection Hi as ->.
    destruct reads as [|[fi| |e] rest]; cbn in Hlen; try lia.
    cbn [display_loop hd]. rewrite Hq. reflexivity.
  - destruct keys as [|k0 keys]; [discriminate|]. cbn in Hi.
    destruct reads as [|[fi| |e] rest]; cbn in Hlen; try lia.
    cbn [display_loop hd tl leading_frames].
    rewrite (Hbefore 0%nat k0) by (try lia; reflexivity).
    specialize (IH rest keys k Hi Hq).
    destruct (display_loop rest keys) as [r t]. cbn.
    f_equal. apply IH; [|lia].
    intros j k' Hj Hk'. apply (Hbefore (S j) k'); [lia|exact Hk'].
Qed.

(** When no read raises, [display_mp4] returns normally and its last two
    calls release the capture and close the windows.  A source that does
    not open is only reported by a printed line: nothing is shown, nothing
    is raised, and the release still happens. *)
Theorem display_mp4_returns (w : World) (video_path : string)
    (keys : list Z) :
  (forall cap, VideoCapture w video_path = Some cap ->
               no_read_raises (v_reads cap)) ->
  let run := display_mp4 w video_path keys in
  fst run = inr tt
  /\ (exists pre, snd run = pre ++ [DRelease; DDestroyAllWindows])
  /\ (VideoCapture w video_path = None ->
        snd run = [DCapOpen video_path; DPrintError; DRelease;
                   DDestroyAllWindows])
  /\ (In DPrintError (snd run) -> VideoCapture w video_path = None).
Proof.
  intros Hnr run. subst run. unfold display_mp4.
  destruct (VideoCapture w video_path) as [cap|] eqn:Hcap.
  - pose proof (display_loop_returns (v_reads cap) (Hnr cap eq_refl) keys)
      as Hret.
    assert (Hnp : ~ In DPrintError (snd (display_loop (v_reads cap) keys))).
    { clear. generalize keys. induction (v_reads cap) as [|r rest IH];
        intros ks.
      - cbn. intuition discriminate.
      - destruct r as [fi| |e]; try (cbn; intuition discriminate).
        cbn [display_loop]. destruct (quit_key _).
        + cbn. intuition discriminate.
        + specialize (IH (tl ks)).
          destruct (display_loop rest (tl ks)) as [r t]. cbn in *.
          intuition discriminate. }
    destruct (display_loop (v_reads cap) keys) as [r t]. cbn in Hret, Hnp.
    subst r. cbn [fst snd].
    split; [reflexivity|]. split; [|split].
    + exists (DCapOpen video_path :: t). reflexivity.
    + discriminate.
    + intros [H|H]; [discriminate|].
      apply in_app_or in H as [H|H]; [contradiction|].
      cbn in H. intuition discriminate.
  - cbn. split; [reflexivity|]. split; [|split; [reflexivity|reflexivity]].
    exists [DCapOpen video_path; DPrintError]. reflexivity.
Qed.

Lemma display_mp4_returns_witness :
  snd (display_mp4 (sample_world None true) "tower-bridge-labeled.mp4" [])
  = [DCapOpen "tower-bridge-labeled.mp4"; DPrintError; DRelease;
     DDestroyAllWindows].
Proof.
  destruct (display_mp4_returns (sample_world None true)
              "tower-bridge-labeled.mp4" [])
    as (_ & _ & H & _).
  - intros cap Hcap. discriminate.
  - apply H. reflexivity.
Defined.

(** Playback shows the frames in order and stops at the first key whose
    low byte is that of 'q' (code 113, whatever bits lie above it; "no
    key", -1, does not count): the frame on screen at that moment is the
    last one shown.  Without such a key every frame up to the end of the
    stream is shown. *)
Theorem display_mp4_stops_at_q (w : World) (video_path : string)
    (keys : list Z) (cap : Video) :
  VideoCapture w video_path = Some cap ->
  let frames := leading_frames (v_reads cap) in
  let run := display_mp4 w video_path keys in
  shown (snd run) `prefix_of` map f_pixels frames
  /\ ((forall k, In k keys -> k mod 256 <> 113) ->
        shown (snd run) = map f_pixels frames)
  /\ (forall (i : nat) (k : Z),
        keys !! i = Some k -> k mod 256 = 113 ->
        (forall j k', (j < i)%nat -> keys !! j = Some k' -> k' mod 256 <> 113) ->
        (i < length frames)%nat ->
        shown (snd run) = map f_pixels (take (S i) frames)).
Proof.
  intros Hcap frames run. subst frames run. unfold display_mp4. rewrite Hcap.
  assert (Hshown : forall r t,
            display_loop (v_reads cap) keys = (r, t) ->
            shown (snd (let '(r, t) := display_loop (v_reads cap) keys in
                        match r with
                        | inl e => (inl e, DCapOpen video_path :: t)
                        | inr _ =>
                            (inr tt,
                             DCapOpen video_path
                             :: t ++ [DRelease; DDestroyAllWindows])
                        end))
            = shown t).
  { intros r t E. rewrite E. destruct r as [e|u]; cbn [snd]; [reflexivity|].
    change (DCapOpen video_path :: t ++ [DRelease; DDestroyAllWindows])
      with ((DCapOpen video_path :: t) ++ [DRelease; DDestroyAllWindows]).
    unfold shown. rewrite omap_app. cbn. apply app_nil_r. }
  destruct (display_loop (v_reads cap) keys) as [r t] eqn:E.
  rewrite (Hshown r t eq_refl).
  replace t with (snd (display_loop (v_reads cap) keys)) by (rewrite E; reflexivity).
  split; [apply display_loop_prefix|]. split.
  - intros Hk. apply display_loop_no_quit. intros k Hin.
    destruct (quit_key k) eqn:Hq; [|reflexivity].
    apply quit_key_low_byte in Hq. exfalso. exact (Hk k Hin Hq).
  - intros i k Hi Hq Hbefore Hlen.
    apply (display_loop_quit_at i _ _ k Hi); [|  |exact Hlen].
    + apply quit_key_low_byte. exact Hq.
    + intros j k' Hj Hk'. destruct (quit_key k') eqn:Hq'; [|reflexivity].
      apply quit_key_low_byte in Hq'. exfalso.
      exact (Hbefore j k' Hj Hk' Hq').
Qed.

Lemma display_mp4_stops_at_q_witness :
  shown (snd (display_mp4 (sample_world (Some broken_video) true) "in.mp4"
                [-1; 1048689; 113]))
  = [0%nat; 1%nat].
Proof.
  destruct (display_mp4_stops_at_q (sample_world (Some broken_video) true)
              "in.mp4" [-1; 1048689; 113] broken_video eq_refl)
    as (_ & _ & H).
  rewrite (H 1%nat 1048689); try reflexivity.
  - intros j k' Hj Hk'. destruct j as [|j]; [|lia].
    injection Hk' as <-. discriminate.
  - cbn. lia.
Defined.

End DisplayEdges.
